(** * HttpClient (src/http.ts): request de-duplication and cancellation

    A shallow embedding of the [HttpClient] class: the request fingerprint
    ([getRequestId], built with [JSON.stringify]), the table of pending
    requests (a JavaScript [Map] from fingerprint to [AbortController]),
    the asynchronous [request] method with its single [await], the four
    convenience wrappers and [cancelAllPendingRequests]. *)

From Stdlib Require Import String Ascii ZArith Lia Bool DecimalString DecimalZ DecimalPos.
From stdpp Require Import base option list strings.

Set Warnings "-register-all".

Local Open Scope Z_scope.
Local Open Scope nat_scope.

(** ** JavaScript numbers

    A Number is NaN, an infinity, a zero of either sign, or a finite
    non-zero number.  [Number::toString] identifies a finite non-zero
    number by its sign and the integers [n], [k] and [s] of its shortest
    decimal form: [s] has [k] digits, the last of them not [0], and the
    number is [s * 10^(n-k)], that is [0.d1...dk * 10^n].  [Finite] holds
    that form: the sign, the [k] digits of [s] and [n].  Every finite
    non-zero Number has exactly one such form (not every form is that of
    a Number: a double has at most 17 digits and a bounded exponent; what
    is proved of all forms holds of the Numbers). *)

Inductive JsNumber : Type :=
| NaN
| Infinity (negative : bool)
| Zero (negative : bool)
| Finite (negative : bool) (digits : string) (point : Z).

Definition Number_isFinite (x : JsNumber) : bool :=
  match x with
  | NaN | Infinity _ => false
  | Zero _ | Finite _ _ _ => true
  end.

Fixpoint strip_zeros (l : list ascii) : list ascii :=
  match l with
  | c :: l' => if Ascii.eqb c "0" then strip_zeros l' else l
  | [] => []
  end.

(** An integer as a Number, for the integers that a Number holds exactly
    with all their digits (those below [2^53] in magnitude): the decimal
    digits without the trailing zeros, and their count. *)
Definition Number_of_Z (n : Z) : JsNumber :=
  let number negative p :=
    let all := list_ascii_of_string (NilEmpty.string_of_uint (Pos.to_uint p)) in
    Finite negative (string_of_list_ascii (rev (strip_zeros (rev all))))
           (Z.of_nat (length all)) in
  match n with
  | Z0 => Zero false
  | Zpos p => number false p
  | Zneg p => number true p
  end.

Coercion Number_of_Z : Z >-> JsNumber.

(** ** JavaScript values

    The values a request config can hold ([params] and [data] are typed
    [any]).  An object is the list of its own enumerable string-keyed
    properties in property order; [JSignal c] is the [AbortSignal] of
    controller [c], an object without own enumerable properties. *)

Inductive JsValue : Type :=
| JUndefined
| JNull
| JBool (b : bool)
| JNumber (x : JsNumber)
| JString (s : string)
| JArray (elements : list JsValue)
| JObject (props : list (string * JsValue))
| JSignal (controller : nat).

Arguments JNumber x%_Z.

Definition JsObject : Type := list (string * JsValue).

(** Property read [o.k]: [undefined] when the property is absent. *)
Fixpoint obj_get (k : string) (o : JsObject) : JsValue :=
  match o with
  | [] => JUndefined
  | (k', v) :: o' => if String.eqb k' k then v else obj_get k o'
  end.

(** Property definition, as in an object literal [{...o, k: v}]: an existing
    property keeps its place and takes the new value, a new one goes last
    (the keys written by the client are never array indices). *)
Fixpoint obj_set (k : string) (v : JsValue) (o : JsObject) : JsObject :=
  match o with
  | [] => [(k, v)]
  | (k', v') :: o' =>
      if String.eqb k' k then (k', v) :: o' else (k', v') :: obj_set k v o'
  end.

(** ** JSON.stringify *)

Definition dquote : ascii := ascii_of_nat 34.
Definition backslash : ascii := ascii_of_nat 92.

Definition hex_digit (n : nat) : ascii :=
  ascii_of_nat (if n <? 10 then 48 + n else 87 + n).

(** [\u00XX] for a control character without a short escape. *)
Definition UnicodeEscape (n : nat) : string :=
  String backslash
    (String "u" (String "0" (String "0"
       (String (hex_digit (n / 16)) (String (hex_digit (n mod 16)) EmptyString))))).

Definition QuoteJSONChar (c : ascii) : string :=
  let n := nat_of_ascii c in
  if n =? 8 then String backslash "b"
  else if n =? 9 then String backslash "t"
  else if n =? 10 then String backslash "n"
  else if n =? 12 then String backslash "f"
  else if n =? 13 then String backslash "r"
  else if n =? 34 then String backslash (String dquote EmptyString)
  else if n =? 92 then String backslash (String backslash EmptyString)
  else if n <? 32 then UnicodeEscape n
  else String c EmptyString.

Fixpoint QuoteJSONChars (s : string) : string :=
  match s with
  | EmptyString => EmptyString
  | String c s' => QuoteJSONChar c +:+ QuoteJSONChars s'
  end.

Definition QuoteJSONString (s : string) : string :=
  String dquote (QuoteJSONChars s +:+ String dquote EmptyString).

(** The decimal digits of an integer, with [-] before a negative one. *)
Definition decimal_of_Z (n : Z) : string :=
  NilZero.string_of_int (Z.to_int n).

(** The exponent of the scientific form: its sign, then its digits. *)
Definition exponent_chars (e : Z) : list ascii :=
  (if (e <? 0)%Z then [] else ["+"%char]) ++ list_ascii_of_string (decimal_of_Z e).

(** [Number::toString] in radix 10 on the [k] digits [d] and the integer
    [n] of a positive finite number: the digits and [n - k] zeros when
    [k <= n <= 21]; a point after [n] digits when [0 < n <= 21]; [0.], [-n]
    zeros and the digits when [-6 < n <= 0]; otherwise the first digit, a
    point before the other digits if there are any, and the exponent
    [n - 1]. *)
Definition Number_chars (d : list ascii) (n : Z) : list ascii :=
  let k := Z.of_nat (length d) in
  if ((k <=? n) && (n <=? 21))%Z then
    d ++ replicate (Z.to_nat (n - k)) "0"%char
  else if ((0 <? n) && (n <=? 21))%Z then
    take (Z.to_nat n) d ++ "."%char :: drop (Z.to_nat n) d
  else if ((-6 <? n) && (n <=? 0))%Z then
    "0"%char :: "."%char :: replicate (Z.to_nat (- n)) "0"%char ++ d
  else
    match d with
    | [] => []
    | [c] => c :: "e"%char :: exponent_chars (n - 1)
    | c :: rest => c :: "."%char :: rest ++ "e"%char :: exponent_chars (n - 1)
    end.

Definition Number_toString (x : JsNumber) : string :=
  match x with
  | NaN => "NaN"
  | Infinity negative => if negative then "-Infinity" else "Infinity"
  | Zero _ => "0"
  | Finite negative digits point =>
      string_of_list_ascii
        ((if negative then ["-"%char] else []) ++
         Number_chars (list_ascii_of_string digits) point)
  end.

Fixpoint join_comma (l : list string) : string :=
  match l with
  | [] => EmptyString
  | s :: l' =>
      match l' with
      | [] => s
      | _ :: _ => s +:+ "," +:+ join_comma l'
      end
  end.

(** [SerializeJSONProperty]: [None] is JavaScript's [undefined] (the
    property is left out of an object and printed [null] in an array). *)
Fixpoint SerializeJSONProperty (v : JsValue) : option string :=
  match v with
  | JUndefined => None
  | JNull => Some "null"
  | JBool b => Some (if b then "true" else "false")
  | JNumber x => Some (if Number_isFinite x then Number_toString x else "null")
  | JString s => Some (QuoteJSONString s)
  | JArray elements =>
      Some ("[" +:+ join_comma
              ((fix items (l : list JsValue) : list string :=
                  match l with
                  | [] => []
                  | e :: l' =>
                      match SerializeJSONProperty e with
                      | Some s => s :: items l'
                      | None => "null" :: items l'
                      end
                  end) elements) +:+ "]")
  | JObject props =>
      Some ("{" +:+ join_comma
              ((fix members (l : list (string * JsValue)) : list string :=
                  match l with
                  | [] => []
                  | (k, x) :: l' =>
                      match SerializeJSONProperty x with
                      | Some s => (QuoteJSONString k +:+ ":" +:+ s) :: members l'
                      | None => members l'
                      end
                  end) props) +:+ "}")
  | JSignal _ => Some "{}"
  end.

Definition JSON_stringify (v : JsValue) : option string :=
  SerializeJSONProperty v.

(** The two list traversals of the serializer, by name. *)
Fixpoint SerializeJSONItems (l : list JsValue) : list string :=
  match l with
  | [] => []
  | e :: l' =>
      match SerializeJSONProperty e with
      | Some s => s :: SerializeJSONItems l'
      | None => "null" :: SerializeJSONItems l'
      end
  end.

Fixpoint SerializeJSONMembers (l : JsObject) : list string :=
  match l with
  | [] => []
  | (k, x) :: l' =>
      match SerializeJSONProperty x with
      | Some s => (QuoteJSONString k +:+ ":" +:+ s) :: SerializeJSONMembers l'
      | None => SerializeJSONMembers l'
      end
  end.

Definition SerializeJSONArray (l : list JsValue) : string :=
  "[" +:+ join_comma (SerializeJSONItems l) +:+ "]".

Definition SerializeJSONObject (o : JsObject) : string :=
  "{" +:+ join_comma (SerializeJSONMembers o) +:+ "}".

(** ** The transport's answers

    [axios] settles a call with a response or rejects it with an error; the
    client casts the caught error to [CustomAxiosError], an [AxiosError]
    with an optional [isCanceled]. *)

Record AxiosResponse : Type := {
  data : JsValue;
  status : Z;
  statusText : string
}.

Record AxiosError : Type := {
  name : string;
  message : string;
  code : option string
}.

Record CustomAxiosError : Type := {
  axiosError : AxiosError;
  isCanceled : option bool
}.

Definition as_CustomAxiosError (e : AxiosError) : CustomAxiosError :=
  {| axiosError := e; isCanceled := None |}.

Definition set_isCanceled (b : bool) (err : CustomAxiosError) : CustomAxiosError :=
  {| axiosError := axiosError err; isCanceled := Some b |}.

Inductive settlement : Type :=
| Resolve (response : AxiosResponse)
| Reject (reason : AxiosError).

(** ** The store: [pendingRequests] and the abort controllers

    A [Map] is its list of entries in insertion order; [delete] empties an
    entry in place (ECMAScript's [[MapData]]), so that a [forEach] under
    way keeps its position.  Controllers are numbered in creation order,
    [aborted] lists those whose signal has fired, and [trace] records the
    operations on the store in program order. *)

Abbreviation MapData := (list (option (string * nat))).

Fixpoint MapData_has (key : string) (m : MapData) : bool :=
  match m with
  | [] => false
  | Some (k, _) :: m' => if String.eqb k key then true else MapData_has key m'
  | None :: m' => MapData_has key m'
  end.

Fixpoint MapData_get (key : string) (m : MapData) : option nat :=
  match m with
  | [] => None
  | Some (k, v) :: m' => if String.eqb k key then Some v else MapData_get key m'
  | None :: m' => MapData_get key m'
  end.

Fixpoint MapData_set (key : string) (value : nat) (m : MapData) : MapData :=
  match m with
  | [] => [Some (key, value)]
  | Some (k, v) :: m' =>
      if String.eqb k key then Some (k, value) :: m'
      else Some (k, v) :: MapData_set key value m'
  | None :: m' => None :: MapData_set key value m'
  end.

Fixpoint MapData_delete (key : string) (m : MapData) : MapData :=
  match m with
  | [] => []
  | Some (k, v) :: m' =>
      if String.eqb k key then None :: m'
      else Some (k, v) :: MapData_delete key m'
  | None :: m' => None :: MapData_delete key m'
  end.

(** The live entries, their keys, and [Map.prototype.size]. *)
Definition MapData_entries (m : MapData) : list (string * nat) := omap id m.
Definition MapData_keys (m : MapData) : list string := (MapData_entries m).*1.
Definition MapData_values (m : MapData) : list nat := (MapData_entries m).*2.
Definition MapData_size (m : MapData) : nat := length (MapData_entries m).

Inductive event : Type :=
| EvHas (requestId : string)
| EvGet (requestId : string)
| EvAbort (controller : nat)
| EvDelete (requestId : string)
| EvNew (controller : nat)
| EvSet (requestId : string) (controller : nat).

Record state : Type := {
  pendingRequests : MapData;
  aborted : list nat;
  controllers : nat;
  trace : list event
}.

(** The constructor of [HttpClient]: an empty [Map]. *)
Definition new_HttpClient : state :=
  {| pendingRequests := []; aborted := []; controllers := 0; trace := [] |}.

Definition emit (e : event) (st : state) : state :=
  {| pendingRequests := pendingRequests st; aborted := aborted st;
     controllers := controllers st; trace := trace st ++ [e] |}.

Definition with_pendingRequests (m : MapData) (st : state) : state :=
  {| pendingRequests := m; aborted := aborted st;
     controllers := controllers st; trace := trace st |}.

(** ** Synchronous code: a state monad over the store *)

Definition M (A : Type) : Type := state → A * state.

Global Instance M_ret : MRet M := λ A a st, (a, st).
Global Instance M_bind : MBind M :=
  λ A B f m st, let '(a, st') := m st in f a st'.

Definition Map_has (key : string) : M bool :=
  λ st, (MapData_has key (pendingRequests st), emit (EvHas key) st).

Definition Map_get (key : string) : M (option nat) :=
  λ st, (MapData_get key (pendingRequests st), emit (EvGet key) st).

Definition Map_set (key : string) (value : nat) : M unit :=
  λ st, (tt, emit (EvSet key value)
               (with_pendingRequests (MapData_set key value (pendingRequests st)) st)).

Definition Map_delete (key : string) : M unit :=
  λ st, (tt, emit (EvDelete key)
               (with_pendingRequests (MapData_delete key (pendingRequests st)) st)).

(** [new AbortController()]. *)
Definition new_AbortController : M nat :=
  λ st, (controllers st,
         emit (EvNew (controllers st))
           {| pendingRequests := pendingRequests st; aborted := aborted st;
              controllers := S (controllers st); trace := trace st |}).

(** [controller.abort()]: the signal fires once. *)
Definition abort (controller : nat) : M unit :=
  λ st, (tt,
         emit (EvAbort controller)
           {| pendingRequests := pendingRequests st;
              aborted := if decide (controller ∈ aborted st) then aborted st
                         else controller :: aborted st;
              controllers := controllers st; trace := trace st |}).

(** [Map.prototype.forEach]: walks the entries by index, reading the list
    again after every callback and skipping emptied entries.  The result
    is [false] when [fuel] runs out before the end of the list. *)
Fixpoint Map_forEach_from (fuel : nat) (callbackfn : nat → string → M unit)
    (index : nat) : M bool :=
  λ st,
    match fuel with
    | 0 => (false, st)
    | S fuel' =>
        match pendingRequests st !! index with
        | None => (true, st)
        | Some None => Map_forEach_from fuel' callbackfn (S index) st
        | Some (Some (key, value)) =>
            let '(_, st') := callbackfn value key st in
            Map_forEach_from fuel' callbackfn (S index) st'
        end
    end.

Definition Map_forEach (fuel : nat) (callbackfn : nat → string → M unit) : M bool :=
  Map_forEach_from fuel callbackfn 0.

(** ** Asynchronous code: a computation runs up to its next [await] *)

Inductive promise (R : Type) : Type :=
| Fulfilled (value : R)
| Rejected (reason : CustomAxiosError)
| Pending (call : JsObject) (resume : settlement → M (promise R)).

Arguments Fulfilled {R} value.
Arguments Rejected {R} reason.
Arguments Pending {R} call resume.

(** [await axios(call)]: hand the call to the transport and suspend. *)
Definition await_axios {R : Type} (call : JsObject)
    (resume : settlement → M (promise R)) : M (promise R) :=
  mret (Pending call resume).

(** ** The client *)

(** [RequestConfig] (an [AxiosRequestConfig]) is a plain object. *)
Definition RequestConfig : Type := JsObject.

(** [{...config}] for an optional config. *)
Definition spread (config : option RequestConfig) : JsObject := default [] config.

Module HttpClient.

(** Destructure four fields, rebuild them in declared order and stringify. *)
Definition getRequestId (config : RequestConfig) : string :=
  let method := obj_get "method" config in
  let url := obj_get "url" config in
  let params := obj_get "params" config in
  let data := obj_get "data" config in
  SerializeJSONObject
    [("method", method); ("url", url); ("params", params); ("data", data)].

Definition cancelAllPendingRequests (fuel : nat) : M bool :=
  Map_forEach fuel (λ controller requestId,
    abort controller;;
    Map_delete requestId).

Definition request (config : RequestConfig) : M (promise JsValue) :=
  let requestId := getRequestId config in
  has ← Map_has requestId;
  (if has : bool then
     controller ← Map_get requestId;
     match controller with
     | Some controller =>
         abort controller;;
         Map_delete requestId
     | None => mret tt
     end
   else mret tt);;
  controller ← new_AbortController;
  let signal := JSignal controller in
  Map_set requestId controller;;
  await_axios (obj_set "signal" signal config) (λ outcome,
    match outcome with
    | Resolve response =>
        Map_delete requestId;;
        mret (Fulfilled (data response))
    | Reject error =>
        let err := as_CustomAxiosError error in
        let err := if String.eqb (name (axiosError err)) "AbortError"
                   then set_isCanceled true err else err in
        Map_delete requestId;;
        mret (Rejected err)
    end).

Definition get (url : string) (config : option RequestConfig) : M (promise JsValue) :=
  request (obj_set "url" (JString url)
             (obj_set "method" (JString "GET") (spread config))).

Definition post (url : string) (data : JsValue) (config : option RequestConfig)
    : M (promise JsValue) :=
  request (obj_set "data" data
             (obj_set "url" (JString url)
                (obj_set "method" (JString "POST") (spread config)))).

Definition put (url : string) (data : JsValue) (config : option RequestConfig)
    : M (promise JsValue) :=
  request (obj_set "data" data
             (obj_set "url" (JString url)
                (obj_set "method" (JString "PUT") (spread config)))).

Definition delete (url : string) (config : option RequestConfig) : M (promise JsValue) :=
  request (obj_set "url" (JString url)
             (obj_set "method" (JString "DELETE") (spread config))).

End HttpClient.

(** ** The event loop

    JavaScript runs one job at a time: a call of a client method runs up to
    its first [await], the settlement of a transport call runs the rest of
    the suspended method.  [outcomes] collects what each call delivered to
    its caller. *)

Record task : Type := {
  task_id : nat;
  task_call : JsObject;
  task_resume : settlement → M (promise JsValue)
}.

Inductive result : Type :=
| Returned (value : JsValue)
| Thrown (err : CustomAxiosError).

Record system : Type := {
  heap : state;
  tasks : list task;
  outcomes : list (nat * result);
  next_task : nat
}.

Definition new_system : system :=
  {| heap := new_HttpClient; tasks := []; outcomes := []; next_task := 0 |}.

Inductive action : Type :=
| CallRequest (config : RequestConfig)
| CallGet (url : string) (config : option RequestConfig)
| CallPost (url : string) (data : JsValue) (config : option RequestConfig)
| CallPut (url : string) (data : JsValue) (config : option RequestConfig)
| CallDelete (url : string) (config : option RequestConfig)
| CallCancelAll
| Settle (id : nat) (outcome : settlement).

(** Record where the job [id] stopped: delivered, or suspended again. *)
Definition park (id : nat) (p : promise JsValue) (st : state)
    (ts : list task) (os : list (nat * result)) (next : nat) : system :=
  match p with
  | Fulfilled value =>
      {| heap := st; tasks := ts; outcomes := os ++ [(id, Returned value)];
         next_task := next |}
  | Rejected reason =>
      {| heap := st; tasks := ts; outcomes := os ++ [(id, Thrown reason)];
         next_task := next |}
  | Pending call resume =>
      {| heap := st;
         tasks := ts ++ [{| task_id := id; task_call := call; task_resume := resume |}];
         outcomes := os; next_task := next |}
  end.

Definition spawn (body : M (promise JsValue)) (sys : system) : system :=
  let '(p, st) := body (heap sys) in
  park (next_task sys) p st (tasks sys) (outcomes sys) (S (next_task sys)).

Fixpoint take_task (id : nat) (ts : list task) : option (task * list task) :=
  match ts with
  | [] => None
  | t :: ts' =>
      if Nat.eqb (task_id t) id then Some (t, ts')
      else match take_task id ts' with
           | Some (t', rest) => Some (t', t :: rest)
           | None => None
           end
  end.

(** One job.  The result is [None] only if [forEach] ran out of fuel. *)
Definition step (a : action) (sys : system) : option system :=
  match a with
  | CallRequest config => Some (spawn (HttpClient.request config) sys)
  | CallGet url config => Some (spawn (HttpClient.get url config) sys)
  | CallPost url data config => Some (spawn (HttpClient.post url data config) sys)
  | CallPut url data config => Some (spawn (HttpClient.put url data config) sys)
  | CallDelete url config => Some (spawn (HttpClient.delete url config) sys)
  | CallCancelAll =>
      let fuel := S (length (pendingRequests (heap sys))) in
      let '(finished, st) := HttpClient.cancelAllPendingRequests fuel (heap sys) in
      if finished : bool
      then Some {| heap := st; tasks := tasks sys; outcomes := outcomes sys;
                   next_task := next_task sys |}
      else None
  | Settle id outcome =>
      match take_task id (tasks sys) with
      | None => Some sys
      | Some (t, rest) =>
          let '(p, st) := task_resume t outcome (heap sys) in
          Some (park id p st rest (outcomes sys) (next_task sys))
      end
  end.

Fixpoint run (actions : list action) (sys : system) : option system :=
  match actions with
  | [] => Some sys
  | a :: actions' =>
      match step a sys with
      | Some sys' => run actions' sys'
      | None => None
      end
  end.

(** The fingerprints of the calls in flight. *)
Definition in_flight (sys : system) : list string :=
  map (λ t, HttpClient.getRequestId (task_call t)) (tasks sys).

(** ** Descriptors of JSON data *)

(** The digits of a shortest decimal form: at least one, the first and
    the last not [0]. *)
Definition is_digit (c : ascii) : bool :=
  let n := nat_of_ascii c in (48 <=? n) && (n <=? 57).

Definition canonical_digits (d : list ascii) : bool :=
  forallb is_digit d &&
  match d with
  | [] => false
  | c :: _ => negb (Ascii.eqb c "0")
  end &&
  match last d with
  | Some c => negb (Ascii.eqb c "0")
  | None => false
  end.

(** The numbers that [JSON.stringify] prints without loss: the finite ones
    other than the negative zero.  NaN and the infinities are printed
    [null], the negative zero [0]. *)
Definition json_number (x : JsNumber) : bool :=
  match x with
  | NaN | Infinity _ => false
  | Zero negative => negb negative
  | Finite _ digits _ => canonical_digits (list_ascii_of_string digits)
  end.

(** Values that [JSON.stringify] prints without loss: no [undefined], no
    number other than a [json_number] and no host object at any depth. *)
Fixpoint json_data (v : JsValue) : bool :=
  match v with
  | JUndefined => false
  | JNull | JBool _ | JString _ => true
  | JNumber x => json_number x
  | JArray elements =>
      (fix all (l : list JsValue) : bool :=
         match l with
         | [] => true
         | e :: l' => json_data e && all l'
         end) elements
  | JObject props =>
      (fix all (l : list (string * JsValue)) : bool :=
         match l with
         | [] => true
         | (_, x) :: l' => json_data x && all l'
         end) props
  | JSignal _ => false
  end.

(** A descriptor field: absent, or JSON data. *)
Definition json_field (v : JsValue) : bool :=
  match v with
  | JUndefined => true
  | _ => json_data v
  end.

(** The canonical form the specification asks of the fingerprint (section
    4.1, step 1, and the open question of section 9): the properties of
    every object sorted by key.  It follows the words of the
    specification; the client has no such step. *)
Fixpoint insert_prop (p : string * JsValue) (o : JsObject) : JsObject :=
  match o with
  | [] => [p]
  | q :: o' => if String.leb p.1 q.1 then p :: q :: o' else q :: insert_prop p o'
  end.

Fixpoint spec_canonical (v : JsValue) : JsValue :=
  match v with
  | JArray elements =>
      JArray ((fix each (l : list JsValue) : list JsValue :=
                 match l with
                 | [] => []
                 | e :: l' => spec_canonical e :: each l'
                 end) elements)
  | JObject props =>
      JObject ((fix sorted (l : list (string * JsValue)) : JsObject :=
                  match l with
                  | [] => []
                  | (k, x) :: l' => insert_prop (k, spec_canonical x) (sorted l')
                  end) props)
  | _ => v
  end.

(** Structural equality of two descriptors in the words of the
    specification: same method, url, params and body under canonical
    serialization. *)
Definition spec_same_descriptor (d1 d2 : RequestConfig) : Prop :=
  spec_canonical (obj_get "method" d1) = spec_canonical (obj_get "method" d2) ∧
  spec_canonical (obj_get "url" d1) = spec_canonical (obj_get "url" d2) ∧
  spec_canonical (obj_get "params" d1) = spec_canonical (obj_get "params" d2) ∧
  spec_canonical (obj_get "data" d1) = spec_canonical (obj_get "data" d2).

(** What [axios] rejects with when the [signal] it was given fires (its
    [CanceledError]), and a failure of the network. *)
Definition CanceledError : AxiosError :=
  {| name := "CanceledError"; message := "canceled"; code := Some "ERR_CANCELED" |}.

Definition NetworkError : AxiosError :=
  {| name := "AxiosError"; message := "Network Error"; code := Some "ERR_NETWORK" |}.

(** The error of an aborted [fetch], the name [request] tests for. *)
Definition AbortError : AxiosError :=
  {| name := "AbortError"; message := "The operation was aborted."; code := None |}.

(** ** Auxiliary notions for the properties below *)

(** The events of one [abort]-and-[delete] per live entry, in table order. *)
Definition cancel_events (entries : list (string * nat)) : list event :=
  flat_map (λ e, [EvAbort e.2; EvDelete e.1]) entries.

(** A suspended job is the rest of some call of [request]. *)
Definition from_request (t : task) : Prop :=
  ∃ config st st',
    HttpClient.request config st = (Pending (task_call t) (task_resume t), st').

Record system_inv (sys : system) : Prop := {
  inv_keys : NoDup (MapData_keys (pendingRequests (heap sys)));
  inv_tasks : Forall from_request (tasks sys);
  inv_ids : map task_id (tasks sys) ++ (outcomes sys).*1 ≡ₚ seq 0 (next_task sys)
}.

(** Reading a quoted string back. *)
Definition hex_value (c : ascii) : nat :=
  let n := nat_of_ascii c in if n <? 58 then n - 48 else n - 87.

(** Reads one quoted character off the front of a string. *)
Definition unquote_head (s : string) : option (ascii * string) :=
  match s with
  | EmptyString => None
  | String c rest =>
      if Ascii.eqb c dquote then None
      else if Ascii.eqb c backslash then
        match rest with
        | String "b" r => Some (ascii_of_nat 8, r)
        | String "t" r => Some (ascii_of_nat 9, r)
        | String "n" r => Some (ascii_of_nat 10, r)
        | String "f" r => Some (ascii_of_nat 12, r)
        | String "r" r => Some (ascii_of_nat 13, r)
        | String "u" (String "0" (String "0" (String h (String l r)))) =>
            Some (ascii_of_nat (16 * hex_value h + hex_value l), r)
        | String c' r => Some (c', r)
        | EmptyString => None
        end
      else Some (c, rest)
  end.

(** The characters of a number: the digits, [+], [-], [.] and [e]. *)
Definition is_numchar (c : ascii) : bool :=
  let n := nat_of_ascii c in
  (n =? 43) || (n =? 45) || (n =? 46) || (n =? 101) || ((48 <=? n) && (n <=? 57)).

(** What tells the four forms of [Number_chars] apart: an exponent, a
    point, a leading zero. *)
Definition form (l : list ascii) : nat :=
  if bool_decide ("e"%char ∈ l) then 4
  else if bool_decide ("."%char ∈ l) then
    if bool_decide (head l = Some "0"%char) then 3 else 2
  else 1.

Definition Number_form (d : list ascii) (n : Z) : nat :=
  let k := Z.of_nat (length d) in
  if ((k <=? n) && (n <=? 21))%Z then 1
  else if ((0 <? n) && (n <=? 21))%Z then 2
  else if ((-6 <? n) && (n <=? 0))%Z then 3
  else 4.

(** What may follow a value: nothing, or a character that is not part of a
    number (in the serializer: a comma or a closing bracket). *)
Definition delimited (r : string) : bool :=
  match r with
  | EmptyString => true
  | String c _ => negb (is_numchar c)
  end.

Fixpoint numeric (s : string) : bool :=
  match s with
  | EmptyString => true
  | String c s' => is_numchar c && numeric s'
  end.

(** The text of a value in an array. *)
Definition ser (v : JsValue) : string := default "null" (SerializeJSONProperty v).

Definition ser_member (p : string * JsValue) : string :=
  QuoteJSONString p.1 +:+ ":" +:+ ser p.2.

(** The first character of a value tells its kind. *)
Definition kind (v : JsValue) : nat :=
  match v with
  | JUndefined | JNull => 0
  | JBool _ => 1
  | JNumber _ => 2
  | JString _ => 3
  | JArray _ => 4
  | JObject _ | JSignal _ => 5
  end.

Definition head_kind (s : string) : nat :=
  match s with
  | EmptyString => 6
  | String c _ =>
      if is_numchar c then 2
      else if Ascii.eqb c "n" then 0
      else if Ascii.eqb c "t" || Ascii.eqb c "f" then 1
      else if Ascii.eqb c dquote then 3
      else if Ascii.eqb c "[" then 4
      else if Ascii.eqb c "{" then 5
      else 6
  end.

(** An item whose text, followed by a delimiter, determines it among the
    [good] items. *)
Definition readable {A : Type} (text : A → string) (good : A → Prop) (x : A) : Prop :=
  ∀ x' r r',
    good x' → delimited r = true → delimited r' = true →
    text x +:+ r = text x' +:+ r' → x = x' ∧ r = r'.

(** Whether a property is printed by [JSON.stringify]. *)
Definition is_defined (v : JsValue) : bool :=
  match v with
  | JUndefined => false
  | _ => true
  end.

(** The properties that [JSON.stringify] prints. *)
Definition defined (o : JsObject) : JsObject :=
  List.filter (λ p, is_defined p.2) o.

(** The four fields of a descriptor are absent or JSON data. *)
Definition json_descriptor (d : RequestConfig) : bool :=
  json_field (obj_get "method" d) && json_field (obj_get "url" d) &&
  json_field (obj_get "params" d) && json_field (obj_get "data" d).

(** ** Notions for the further properties of the client *)

(** The configs that [get], [post], [put] and [delete] hand to [request]. *)
Definition get_config (url : string) (config : option RequestConfig) : RequestConfig :=
  obj_set "url" (JString url) (obj_set "method" (JString "GET") (spread config)).

Definition post_config (url : string) (data : JsValue) (config : option RequestConfig)
    : RequestConfig :=
  obj_set "data" data
    (obj_set "url" (JString url) (obj_set "method" (JString "POST") (spread config))).

Definition put_config (url : string) (data : JsValue) (config : option RequestConfig)
    : RequestConfig :=
  obj_set "data" data
    (obj_set "url" (JString url) (obj_set "method" (JString "PUT") (spread config))).

Definition delete_config (url : string) (config : option RequestConfig) : RequestConfig :=
  obj_set "url" (JString url) (obj_set "method" (JString "DELETE") (spread config)).

(** The [signal] that a suspended call gave to the transport. *)
Definition task_signal (t : task) : JsValue := obj_get "signal" (task_call t).

(** What links the table, the controllers and the calls in flight: every
    live entry is the fingerprint and the controller of a call in flight;
    the calls in flight carry the signals of distinct controllers of the
    client; only controllers of the client are aborted. *)
Record client_inv (sys : system) : Prop := {
  inv_system : system_inv sys;
  inv_entries :
    ∀ k c, (k, c) ∈ MapData_entries (pendingRequests (heap sys)) →
           ∃ t, t ∈ tasks sys ∧ HttpClient.getRequestId (task_call t) = k ∧
                task_signal t = JSignal c;
  inv_signals :
    ∀ t, t ∈ tasks sys →
         ∃ c, task_signal t = JSignal c ∧ c < controllers (heap sys);
  inv_signals_NoDup : NoDup (map task_signal (tasks sys));
  inv_aborted : ∀ c, c ∈ aborted (heap sys) → c < controllers (heap sys)
}.

(** The entry of a fingerprint belongs to the latest call in flight with
    that fingerprint (controllers are numbered in creation order). *)
Definition latest_entry (sys : system) : Prop :=
  ∀ k c t c',
    (k, c) ∈ MapData_entries (pendingRequests (heap sys)) →
    t ∈ tasks sys →
    HttpClient.getRequestId (task_call t) = k →
    task_signal t = JSignal c' →
    c' ≤ c.

(** * Properties *)

(** ** The model on the scenarios of the specification *)

Example getRequestId_page1 :
  HttpClient.getRequestId
    [("url", JString "/items"); ("method", JString "GET");
     ("params", JObject [("page", JNumber 1)]); ("timeout", JNumber 5000)]
  = String.concat ""
      ["{"; QuoteJSONString "method"; ":"; QuoteJSONString "GET"; ",";
       QuoteJSONString "url"; ":"; QuoteJSONString "/items"; ",";
       QuoteJSONString "params"; ":{"; QuoteJSONString "page"; ":1}}"].
Proof. reflexivity. Qed.

Example stringify_array :
  JSON_stringify (JArray [JUndefined; JNull; JNumber (-12); JBool true;
                          JString "a\b"])
  = Some (String.concat ""
            ["[null,null,-12,true,"; String dquote "a\\b"; String dquote "]"]).
Proof. reflexivity. Qed.

(** [Number::toString]: the digits of an integer, the exponent from 1e21
    on and below 1e-6, the fractions. *)
Example Number_toString_forms :
  map Number_toString
    [Number_of_Z 0; Number_of_Z 12; Number_of_Z (-1200);
     Finite false "1" 21; Finite false "1" 22;
     Finite false "12345678901234568" 22; Finite false "5" 0;
     Finite true "15" 1; Finite false "1" (-5); Finite false "1" (-6);
     Finite false "123" (-7)]
  = ["0"; "12"; "-1200"; "100000000000000000000"; "1e+21";
     "1.2345678901234568e+21"; "0.5"; "-1.5"; "0.000001"; "1e-7"; "1.23e-8"].
Proof. reflexivity. Qed.

(** NaN and the infinities are printed [null], the negative zero [0]. *)
Example stringify_numbers :
  JSON_stringify (JArray [JNumber NaN; JNumber (Infinity true); JNumber (Zero true);
                          JNumber (Finite false "25" 1); JNumber 1000])
  = Some "[null,null,0,2.5,1000]".
Proof. reflexivity. Qed.

(** Two different pages in flight together: neither call is aborted. *)
Example distinct_fingerprints_do_not_interfere :
  let page n := Some [("params", JObject [("page", JNumber n)])] in
  (λ sys, (map task_id (tasks sys), aborted (heap sys),
           MapData_values (pendingRequests (heap sys))))
    <$> run [CallGet "/items" (page 1%Z); CallGet "/items" (page 2%Z)] new_system
  = Some ([0; 1], [], [0; 1]).
Proof. by vm_compute. Qed.

(** Three calls, then [cancelAllPendingRequests]: three aborts, no entry. *)
Example cancelAll_three :
  (λ sys, (aborted (heap sys), MapData_size (pendingRequests (heap sys))))
    <$> run [CallGet "/a" None; CallPost "/b" JNull None; CallDelete "/c" None;
             CallCancelAll] new_system
  = Some ([2; 1; 0], 0).
Proof. by vm_compute. Qed.

(** An error named AbortError is marked. *)
Example AbortError_is_marked :
  outcomes <$> run [CallGet "/items" None; CallGet "/items" None;
                    Settle 0 (Reject AbortError)] new_system
  = Some [(0, Thrown {| axiosError := AbortError; isCanceled := Some true |})].
Proof. by vm_compute. Qed.

(** [get(url, {method: 'POST'})] calls the transport with GET. *)
Example get_overrides_method :
  (λ sys, map (λ t, (obj_get "method" (task_call t), obj_get "url" (task_call t)))
            (tasks sys))
    <$> run [CallGet "/items" (Some [("method", JString "POST")])] new_system
  = Some [(JString "GET", JString "/items")].
Proof. by vm_compute. Qed.

(** ** Objects *)

Lemma obj_get_set_eq k v o : obj_get k (obj_set k v o) = v.
Proof.
  induction o as [|[k' v'] o IH]; simpl.
  - by rewrite String.eqb_refl.
  - destruct (String.eqb k' k) eqn:E; simpl; by rewrite E.
Qed.

Lemma obj_get_set_ne k k' v o : k ≠ k' → obj_get k' (obj_set k v o) = obj_get k' o.
Proof.
  intros Hne. induction o as [|[k0 v0] o IH]; simpl.
  - by apply String.eqb_neq in Hne as ->.
  - destruct (String.eqb k0 k) eqn:E; simpl; [|by rewrite IH].
    apply String.eqb_eq in E as ->. by apply String.eqb_neq in Hne as ->.
Qed.

(** The fingerprint reads only [method], [url], [params] and [data]. *)
Lemma getRequestId_fields c1 c2 :
  obj_get "method" c1 = obj_get "method" c2 →
  obj_get "url" c1 = obj_get "url" c2 →
  obj_get "params" c1 = obj_get "params" c2 →
  obj_get "data" c1 = obj_get "data" c2 →
  HttpClient.getRequestId c1 = HttpClient.getRequestId c2.
Proof. unfold HttpClient.getRequestId. by intros -> -> -> ->. Qed.

Lemma getRequestId_set_other k v config :
  k ≠ "method" → k ≠ "url" → k ≠ "params" → k ≠ "data" →
  HttpClient.getRequestId (obj_set k v config) = HttpClient.getRequestId config.
Proof. intros. apply getRequestId_fields; by apply obj_get_set_ne. Qed.

(** ** The table *)

Lemma MapData_has_get key m :
  MapData_has key m = true ↔ is_Some (MapData_get key m).
Proof.
  induction m as [|[[k v]|] m IH]; simpl.
  - split; [done|]. by intros [? ?].
  - destruct (String.eqb k key); [|done]. split; eauto.
  - done.
Qed.

Lemma MapData_keys_Some k v m : MapData_keys (Some (k, v) :: m) = k :: MapData_keys m.
Proof. reflexivity. Qed.

Lemma MapData_keys_None m : MapData_keys (None :: m) = MapData_keys m.
Proof. reflexivity. Qed.

Lemma MapData_has_keys key m :
  MapData_has key m = true ↔ key ∈ MapData_keys m.
Proof.
  induction m as [|[[k v]|] m IH].
  - split; [done|]. by intros ?%elem_of_nil.
  - rewrite MapData_keys_Some, elem_of_cons. simpl.
    destruct (String.eqb_spec k key) as [->|Hne].
    + split; auto.
    + rewrite IH. split; [auto|]. intros [?|?]; [congruence|done].
  - by rewrite MapData_keys_None.
Qed.

Lemma MapData_get_set_eq key value m :
  MapData_get key (MapData_set key value m) = Some value.
Proof.
  induction m as [|[[k v]|] m IH]; simpl.
  - by rewrite String.eqb_refl.
  - destruct (String.eqb k key) eqn:E; simpl; by rewrite E.
  - done.
Qed.

Lemma MapData_keys_delete key m :
  MapData_keys (MapData_delete key m) `sublist_of` MapData_keys m.
Proof.
  induction m as [|[[k v]|] m IH]; [done| |by rewrite MapData_keys_None].
  simpl. destruct (String.eqb k key).
  - rewrite MapData_keys_None, MapData_keys_Some. by apply sublist_cons.
  - rewrite !MapData_keys_Some. by apply sublist_skip.
Qed.

Lemma MapData_keys_set key value m :
  MapData_keys (MapData_set key value m) =
    if MapData_has key m then MapData_keys m else MapData_keys m ++ [key].
Proof.
  induction m as [|[[k v]|] m IH]; [done| |by rewrite MapData_keys_None].
  simpl. destruct (String.eqb k key) eqn:E; [done|].
  rewrite !MapData_keys_Some, IH. by destruct (MapData_has key m).
Qed.

(** [Map.set] and [Map.delete] keep the keys of the live entries distinct. *)
Lemma MapData_delete_NoDup key m :
  NoDup (MapData_keys m) → NoDup (MapData_keys (MapData_delete key m)).
Proof. intros Hm. eapply sublist_NoDup; [done|apply MapData_keys_delete]. Qed.

Lemma MapData_set_NoDup key value m :
  NoDup (MapData_keys m) → NoDup (MapData_keys (MapData_set key value m)).
Proof.
  intros Hm. rewrite MapData_keys_set.
  destruct (MapData_has key m) eqn:E; [done|].
  apply NoDup_app. split_and!; [done| |apply NoDup_singleton].
  intros k Hk ->%list_elem_of_singleton.
  apply MapData_has_keys in Hk. congruence.
Qed.

(** Lookups, entries and size after [set] and [delete]. *)

Lemma MapData_entries_Some k v (m : MapData) :
  MapData_entries (Some (k, v) :: m) = (k, v) :: MapData_entries m.
Proof. reflexivity. Qed.

Lemma MapData_entries_None (m : MapData) :
  MapData_entries (None :: m) = MapData_entries m.
Proof. reflexivity. Qed.

Lemma MapData_entries_replicate n : MapData_entries (replicate n None) = [].
Proof. induction n as [|n IH]; [done|]. exact IH. Qed.

Lemma MapData_get_set_ne key k value m :
  k ≠ key → MapData_get k (MapData_set key value m) = MapData_get k m.
Proof.
  intros Hne. induction m as [|[[k' v']|] m IH]; cbn [MapData_set MapData_delete MapData_get MapData_has].
  - by apply not_eq_sym, String.eqb_neq in Hne as ->.
  - destruct (String.eqb_spec k' key) as [->|Hk]; cbn [MapData_set MapData_delete MapData_get MapData_has]; [|by rewrite IH].
    by apply not_eq_sym, String.eqb_neq in Hne as ->.
  - done.
Qed.

Lemma MapData_get_delete_ne key k m :
  k ≠ key → MapData_get k (MapData_delete key m) = MapData_get k m.
Proof.
  intros Hne. induction m as [|[[k' v']|] m IH]; cbn [MapData_set MapData_delete MapData_get MapData_has]; [done| |done].
  destruct (String.eqb_spec k' key) as [->|Hk]; cbn [MapData_set MapData_delete MapData_get MapData_has]; [|by rewrite IH].
  by apply not_eq_sym, String.eqb_neq in Hne as ->.
Qed.

Lemma MapData_get_entries k c m :
  MapData_get k m = Some c → (k, c) ∈ MapData_entries m.
Proof.
  induction m as [|[[k' v']|] m IH]; cbn [MapData_set MapData_delete MapData_get MapData_has]; [done| |by rewrite MapData_entries_None].
  rewrite MapData_entries_Some, elem_of_cons.
  destruct (String.eqb_spec k' k) as [->|Hk]; [intros [= ->]; by left|auto].
Qed.

Lemma MapData_entries_set key value m k c :
  (k, c) ∈ MapData_entries (MapData_set key value m) →
  (k, c) = (key, value) ∨ (k, c) ∈ MapData_entries m.
Proof.
  induction m as [|[[k' v']|] m IH]; cbn [MapData_set MapData_delete MapData_get MapData_has].
  - intros ->%list_elem_of_singleton. by left.
  - destruct (String.eqb_spec k' key) as [->|Hk];
      rewrite !MapData_entries_Some, !elem_of_cons; [tauto|].
    intros [?|?]; [tauto|]. destruct IH; auto.
  - by rewrite !MapData_entries_None.
Qed.

Lemma MapData_entries_delete key m k c :
  (k, c) ∈ MapData_entries (MapData_delete key m) → (k, c) ∈ MapData_entries m.
Proof.
  induction m as [|[[k' v']|] m IH]; cbn [MapData_set MapData_delete MapData_get MapData_has]; [done| |by rewrite !MapData_entries_None].
  destruct (String.eqb_spec k' key) as [->|Hk].
  - rewrite MapData_entries_None, MapData_entries_Some, elem_of_cons. auto.
  - rewrite !MapData_entries_Some, !elem_of_cons. intros [?|?]; auto.
Qed.

Lemma MapData_has_delete key m :
  NoDup (MapData_keys m) → MapData_has key (MapData_delete key m) = false.
Proof.
  induction m as [|[[k' v']|] m IH]; cbn [MapData_set MapData_delete MapData_get MapData_has]; [done| |by rewrite MapData_keys_None].
  rewrite MapData_keys_Some. intros [Hk Hm]%NoDup_cons.
  destruct (String.eqb_spec k' key) as [->|Hne]; cbn [MapData_set MapData_delete MapData_get MapData_has].
  - destruct (MapData_has key m) eqn:E; [|done].
    by apply MapData_has_keys in E.
  - apply String.eqb_neq in Hne as ->. by apply IH.
Qed.

Lemma MapData_entries_delete_ne key m k c :
  NoDup (MapData_keys m) →
  (k, c) ∈ MapData_entries (MapData_delete key m) → k ≠ key.
Proof.
  intros Hm Hin ->.
  assert (key ∈ MapData_keys (MapData_delete key m)) as Hkey.
  { apply list_elem_of_fmap. by exists (key, c). }
  apply MapData_has_keys in Hkey. by rewrite MapData_has_delete in Hkey.
Qed.

Lemma MapData_size_set key value m :
  MapData_size (MapData_set key value m) =
    if MapData_has key m then MapData_size m else S (MapData_size m).
Proof.
  unfold MapData_size.
  induction m as [|[[k' v']|] m IH]; cbn [MapData_set MapData_delete MapData_get MapData_has]; [done| |by rewrite !MapData_entries_None].
  destruct (String.eqb k' key); rewrite !MapData_entries_Some; simpl; [done|].
  rewrite IH. by destruct (MapData_has key m).
Qed.

Lemma MapData_size_delete key m :
  MapData_has key m = true →
  S (MapData_size (MapData_delete key m)) = MapData_size m.
Proof.
  unfold MapData_size.
  induction m as [|[[k' v']|] m IH]; cbn [MapData_set MapData_delete MapData_get MapData_has]; [done| |by rewrite !MapData_entries_None].
  destruct (String.eqb k' key).
  - by rewrite MapData_entries_None, MapData_entries_Some.
  - intros Hhas. rewrite !MapData_entries_Some. simpl. by rewrite IH.
Qed.

Lemma MapData_entries_set_new key value m :
  MapData_has key m = false →
  MapData_entries (MapData_set key value m) = MapData_entries m ++ [(key, value)].
Proof.
  induction m as [|[[k' v']|] m IH]; cbn [MapData_set MapData_has]; [done| |done].
  destruct (String.eqb k' key); [done|]. intros Hhas.
  by rewrite !MapData_entries_Some, IH.
Qed.

(** [delete] takes the entry of its key out of the live entries and keeps
    the others in their order. *)
Lemma MapData_entries_delete_filter key m :
  NoDup (MapData_keys m) →
  MapData_entries (MapData_delete key m) =
    filter (λ e, e.1 ≠ key) (MapData_entries m).
Proof.
  assert (∀ entries : list (string * nat),
            key ∉ entries.*1 → filter (λ e, e.1 ≠ key) entries = entries) as Hkeep.
  { induction entries as [|[k c] entries IH]; [done|].
    simpl. intros [Hk Hrest]%not_elem_of_cons.
    rewrite filter_cons_True by (simpl; congruence). by rewrite IH. }
  induction m as [|[[k' v']|] m IH]; cbn [MapData_delete]; [done| |].
  - rewrite MapData_keys_Some. intros [Hk Hm]%NoDup_cons.
    destruct (String.eqb_spec k' key) as [->|Hne].
    + rewrite MapData_entries_None, MapData_entries_Some.
      rewrite filter_cons_False by (simpl; tauto). symmetry. by apply Hkeep.
    + rewrite !MapData_entries_Some, filter_cons_True by done. by rewrite IH.
  - rewrite MapData_keys_None, !MapData_entries_None. apply IH.
Qed.

(** ** One call of [request]

    What the synchronous part of [request] does to the store, the call it
    hands to the transport, and what the suspended rest does when the
    transport settles. *)

Lemma request_run config st :
  let requestId := HttpClient.getRequestId config in
  let m := pendingRequests st in
  let c := controllers st in
  ∃ resume st',
    HttpClient.request config st =
      (Pending (obj_set "signal" (JSignal c) config) resume, st') ∧
    controllers st' = S c ∧
    match MapData_get requestId m with
    | Some old =>
        MapData_has requestId m = true ∧
        pendingRequests st' = MapData_set requestId c (MapData_delete requestId m) ∧
        aborted st' = (if decide (old ∈ aborted st) then aborted st else old :: aborted st) ∧
        trace st' = trace st ++ [EvHas requestId; EvGet requestId; EvAbort old;
                                 EvDelete requestId; EvNew c; EvSet requestId c]
    | None =>
        MapData_has requestId m = false ∧
        pendingRequests st' = MapData_set requestId c m ∧
        aborted st' = aborted st ∧
        trace st' = trace st ++ [EvHas requestId; EvNew c; EvSet requestId c]
    end ∧
    ∀ outcome st2,
      resume outcome st2 =
        (match outcome with
         | Resolve response => Fulfilled (data response)
         | Reject reason =>
             Rejected {| axiosError := reason;
                         isCanceled := if String.eqb (name reason) "AbortError"
                                       then Some true else None |}
         end,
         emit (EvDelete requestId)
           (with_pendingRequests (MapData_delete requestId (pendingRequests st2)) st2)).
Proof.
  intros requestId m c. subst m c.
  unfold HttpClient.request. fold requestId.
  unfold mbind, M_bind, mret, M_ret, Map_has, Map_get, abort, Map_delete,
    new_AbortController, Map_set, await_axios.
  destruct (MapData_has requestId (pendingRequests st)) eqn:Hhas.
  - destruct (proj1 (MapData_has_get requestId _) Hhas) as [old Hold].
    simpl. rewrite Hold. simpl. eexists _, _. split; [reflexivity|].
    split; [done|]. split.
    + split_and!; try done. simpl. by rewrite <- !app_assoc.
    + intros [response|reason] st2; [done|].
      simpl. by destruct (String.eqb (name reason) "AbortError").
  - destruct (MapData_get requestId (pendingRequests st)) as [old|] eqn:Hold.
    { assert (MapData_has requestId (pendingRequests st) = true)
        by (apply MapData_has_get; eauto).
      congruence. }
    simpl. eexists _, _. split; [reflexivity|].
    split; [done|]. split.
    + split_and!; try done. simpl. by rewrite <- !app_assoc.
    + intros [response|reason] st2; [done|].
      simpl. by destruct (String.eqb (name reason) "AbortError").
Qed.

(** ** [cancelAllPendingRequests]: the walk over the table *)

Lemma replicate_None_snoc {A} n (r : list (option A)) :
  replicate n None ++ None :: r = replicate (S n) None ++ r.
Proof. induction n as [|n IH]; simpl; [done|]. by rewrite IH. Qed.

Lemma MapData_delete_first key value n (r : MapData) :
  MapData_delete key (replicate n None ++ Some (key, value) :: r) =
    replicate n None ++ None :: r.
Proof.
  induction n as [|n IH]; simpl.
  - by rewrite String.eqb_refl.
  - by rewrite IH.
Qed.

Lemma lookup_after_replicate {A} n (x : A) (r : list A) :
  (replicate n x ++ r) !! n = r !! 0.
Proof.
  rewrite lookup_app_r by (by rewrite length_replicate).
  by rewrite length_replicate, Nat.sub_diag.
Qed.

Lemma forEach_cancel_from (rest : MapData) :
  ∀ n fuel st,
    pendingRequests st = replicate n None ++ rest →
    length rest < fuel →
    ∃ st',
      Map_forEach_from fuel
        (λ controller requestId, abort controller;; Map_delete requestId) n st
        = (true, st') ∧
      pendingRequests st' = replicate (n + length rest) None ∧
      controllers st' = controllers st ∧
      trace st' = trace st ++ cancel_events (MapData_entries rest) ∧
      (∀ c, c ∈ aborted st' ↔ c ∈ aborted st ∨ c ∈ MapData_values rest).
Proof.
  induction rest as [|e rest IH]; intros n fuel st Hm Hfuel.
  - destruct fuel as [|fuel]; [simpl in Hfuel; lia|].
    simpl. rewrite Hm, lookup_after_replicate. simpl.
    eexists. split; [done|]. rewrite Hm, !app_nil_r, Nat.add_0_r.
    split_and!; try done.
    intros c. unfold MapData_values, MapData_entries. simpl.
    rewrite elem_of_nil. tauto.
  - destruct fuel as [|fuel]; [simpl in Hfuel; lia|].
    simpl in Hfuel. simpl. rewrite Hm, lookup_after_replicate. simpl.
    destruct e as [[key value]|].
    + unfold mbind, M_bind, abort, Map_delete. simpl.
      match goal with |- ∃ _, Map_forEach_from _ _ _ ?s = _ ∧ _ =>
        destruct (IH (S n) fuel s) as (st' & Hrun & Hp & Hc & Ht & Ha)
      end.
      { simpl. rewrite MapData_delete_first. apply replicate_None_snoc. }
      { lia. }
      exists st'. split; [done|]. split_and!.
      * rewrite Hp. f_equal. lia.
      * done.
      * rewrite Ht. simpl. unfold MapData_entries. simpl.
        by rewrite <- !app_assoc.
      * intros c. rewrite Ha. simpl.
        unfold MapData_values, MapData_entries. simpl.
        rewrite elem_of_cons. destruct (decide (value ∈ aborted st)).
        -- split; [tauto|]. intros [?|[->|?]]; tauto.
        -- rewrite elem_of_cons. tauto.
    + destruct (IH (S n) fuel st) as (st' & Hrun & Hp & Hc & Ht & Ha).
      { rewrite Hm. apply replicate_None_snoc. }
      { lia. }
      exists st'. split; [done|]. split_and!; try done.
      rewrite Hp. f_equal. lia.
Qed.

(** ** Invariants of the event loop *)

Lemma from_request_resume t :
  from_request t →
  ∃ requestId, ∀ outcome st,
    task_resume t outcome st =
      (match outcome with
       | Resolve response => Fulfilled (data response)
       | Reject reason =>
           Rejected {| axiosError := reason;
                       isCanceled := if String.eqb (name reason) "AbortError"
                                     then Some true else None |}
       end,
       emit (EvDelete requestId)
         (with_pendingRequests (MapData_delete requestId (pendingRequests st)) st)) ∧
    requestId = HttpClient.getRequestId (task_call t).
Proof.
  intros (config & st0 & st0' & Heq).
  destruct (request_run config st0) as (resume & st1 & Hrun & _ & _ & Hres).
  rewrite Hrun in Heq. injection Heq as Hcall Hresume _.
  exists (HttpClient.getRequestId config). intros outcome st.
  rewrite <- Hresume, <- Hcall. split; [apply Hres|].
  by rewrite getRequestId_set_other.
Qed.

Lemma take_task_Some id ts t rest :
  take_task id ts = Some (t, rest) →
  task_id t = id ∧ ts ≡ₚ t :: rest.
Proof.
  revert t rest. induction ts as [|t0 ts IH]; intros t rest; simpl; [done|].
  destruct (Nat.eqb_spec (task_id t0) id) as [Heq|Hne].
  - by intros [= <- <-].
  - destruct (take_task id ts) as [[t' rest']|]; [|done].
    intros [= <- <-]. destruct (IH _ _ eq_refl) as [Hid Hperm].
    split; [done|]. rewrite Hperm. apply Permutation_swap.
Qed.

Lemma spawn_request config sys :
  ∃ resume st',
    HttpClient.request config (heap sys) =
      (Pending (obj_set "signal" (JSignal (controllers (heap sys))) config) resume, st') ∧
    spawn (HttpClient.request config) sys =
      {| heap := st';
         tasks := tasks sys ++
           [{| task_id := next_task sys;
               task_call := obj_set "signal" (JSignal (controllers (heap sys))) config;
               task_resume := resume |}];
         outcomes := outcomes sys;
         next_task := S (next_task sys) |}.
Proof.
  destruct (request_run config (heap sys)) as (resume & st' & Hrun & _).
  exists resume, st'. split; [done|]. unfold spawn. by rewrite Hrun.
Qed.

Lemma spawn_request_inv config sys :
  system_inv sys → system_inv (spawn (HttpClient.request config) sys).
Proof.
  intros [Hkeys Htasks Hids].
  destruct (spawn_request config sys) as (resume & st' & Hrun & ->).
  destruct (request_run config (heap sys)) as (resume' & st'' & Hrun' & _ & Hst & _).
  rewrite Hrun in Hrun'. injection Hrun' as <- <-.
  split; cbn [heap tasks outcomes next_task].
  - destruct (MapData_get _ _); destruct Hst as (_ & -> & _);
      auto using MapData_set_NoDup, MapData_delete_NoDup.
  - apply Forall_app. split; [done|]. apply Forall_singleton.
    by exists config, (heap sys), st'.
  - rewrite map_app, seq_S. cbn [map task_id]. rewrite <- Hids.
    rewrite <- !app_assoc. apply Permutation_app_head, Permutation_app_comm.
Qed.

Lemma settle_inv id outcome sys :
  system_inv sys →
  ∃ sys', step (Settle id outcome) sys = Some sys' ∧ system_inv sys'.
Proof.
  intros Hinv. pose proof Hinv as [Hkeys Htasks Hids]. simpl.
  destruct (take_task id (tasks sys)) as [[t rest]|] eqn:Htake; [|by eauto].
  destruct (take_task_Some _ _ _ _ Htake) as [Hid Hperm].
  rewrite Hperm in Htasks. apply Forall_cons in Htasks as [Ht Hrest].
  destruct (from_request_resume t Ht) as (requestId & Hres).
  destruct (Hres outcome (heap sys)) as [-> _].
  eexists. split; [done|].
  assert (map task_id rest ++ (outcomes sys).*1 ++ [id] ≡ₚ seq 0 (next_task sys)).
  { rewrite <- Hids, Hperm. simpl. rewrite Hid.
    rewrite app_assoc, <- Permutation_cons_append. done. }
  destruct outcome; split; simpl;
    auto using MapData_delete_NoDup; by rewrite fmap_app.
Qed.

Lemma cancelAll_run st :
  ∃ st',
    HttpClient.cancelAllPendingRequests (S (length (pendingRequests st))) st = (true, st') ∧
    pendingRequests st' = replicate (length (pendingRequests st)) None ∧
    controllers st' = controllers st ∧
    trace st' = trace st ++ cancel_events (MapData_entries (pendingRequests st)) ∧
    (∀ c, c ∈ aborted st' ↔ c ∈ aborted st ∨ c ∈ MapData_values (pendingRequests st)).
Proof.
  destruct (forEach_cancel_from (pendingRequests st) 0
              (S (length (pendingRequests st))) st) as (st' & H); [done|lia|].
  by exists st'.
Qed.

Lemma MapData_keys_replicate n : MapData_keys (replicate n None) = [].
Proof. induction n as [|n IH]; [done|]. simpl. by rewrite MapData_keys_None. Qed.

Lemma cancelAll_inv sys :
  system_inv sys →
  ∃ sys', step CallCancelAll sys = Some sys' ∧ system_inv sys'.
Proof.
  intros [Hkeys Htasks Hids]. simpl.
  destruct (cancelAll_run (heap sys)) as (st' & -> & Hp & _).
  eexists. split; [done|]. split; simpl; try done.
  rewrite Hp, MapData_keys_replicate. constructor.
Qed.

Lemma step_inv a sys :
  system_inv sys → ∃ sys', step a sys = Some sys' ∧ system_inv sys'.
Proof.
  intros Hinv. destruct a;
    try (eexists; split; [reflexivity|]; by apply spawn_request_inv).
  - by apply cancelAll_inv.
  - by apply settle_inv.
Qed.

Lemma new_system_inv : system_inv new_system.
Proof. split; simpl; constructor. Qed.

Lemma run_inv actions :
  ∀ sys, system_inv sys → ∃ sys', run actions sys = Some sys' ∧ system_inv sys'.
Proof.
  induction actions as [|a actions IH]; intros sys Hinv; simpl; [by eauto|].
  destruct (step_inv a sys Hinv) as (sys1 & -> & Hinv1). by apply IH.
Qed.

Lemma take_task_elem id ts :
  id ∈ map task_id ts →
  ∃ t rest, take_task id ts = Some (t, rest) ∧ t ∈ ts.
Proof.
  induction ts as [|t0 ts IH]; simpl; [by intros ?%elem_of_nil|].
  intros Hin. destruct (Nat.eqb_spec (task_id t0) id) as [Heq|Hne].
  - exists t0, ts. split; [done|]. apply elem_of_cons. by left.
  - apply elem_of_cons in Hin as [?|Hin]; [congruence|].
    destruct (IH Hin) as (t & rest & -> & Ht).
    exists t, (t0 :: rest). split; [done|]. apply elem_of_cons. by right.
Qed.

Lemma NoDup_keys_count (entries : list (string * nat)) requestId :
  NoDup entries.*1 →
  length (filter (λ e, e.1 = requestId) entries) ≤ 1.
Proof.
  induction entries as [|[k c] entries IH]; simpl; [lia|].
  intros [Hk Hrest]%NoDup_cons. rewrite filter_cons. simpl.
  destruct (decide (k = requestId)) as [->|Hne]; [|by apply IH].
  assert (filter (λ e : string * nat, e.1 = requestId) entries = []) as ->;
    [|simpl; lia].
  clear IH Hrest. induction entries as [|[k' c'] entries IH]; [done|].
  rewrite filter_cons. simpl in *.
  destruct (decide (k' = requestId)) as [->|_].
  - exfalso. apply Hk. apply elem_of_cons. by left.
  - apply IH. intros Hin. apply Hk. apply elem_of_cons. by right.
Qed.

(** ** The claims about the table and the event loop *)

(** C7: after every sequence of calls to the client (the four wrappers,
    [request], [cancelAllPendingRequests]) and settlements by the
    transport, the table of pending requests holds at most one live entry
    for any fingerprint; no such sequence gets stuck. *)
Theorem pendingRequests_one_entry_per_fingerprint (actions : list action) :
  ∃ sys,
    run actions new_system = Some sys ∧
    NoDup (MapData_keys (pendingRequests (heap sys))) ∧
    ∀ requestId,
      length (filter (λ e, e.1 = requestId)
                (MapData_entries (pendingRequests (heap sys)))) ≤ 1.
Proof.
  destruct (run_inv actions new_system new_system_inv) as (sys & Hrun & Hinv).
  exists sys. split; [done|]. destruct Hinv as [Hkeys _ _].
  split; [done|]. intros requestId. by apply NoDup_keys_count.
Qed.



(** C5: [cancelAllPendingRequests] visits every live entry of the table
    once, in table order, aborting its controller and deleting it: every
    stored controller is aborted, and the table has size 0 when the call
    returns (given the fuel to walk the list of entries). *)
Theorem cancelAllPendingRequests_aborts_all (st : state) (fuel : nat) :
  length (pendingRequests st) < fuel →
  ∃ st',
    HttpClient.cancelAllPendingRequests fuel st = (true, st') ∧
    trace st' = trace st ++ cancel_events (MapData_entries (pendingRequests st)) ∧
    (∀ c, c ∈ MapData_values (pendingRequests st) → c ∈ aborted st') ∧
    MapData_size (pendingRequests st') = 0 ∧
    ∀ requestId, MapData_has requestId (pendingRequests st') = false.
Proof.
  intros Hfuel.
  destruct (forEach_cancel_from (pendingRequests st) 0 fuel st)
    as (st' & Hrun & Hp & _ & Ht & Ha); [done|done|].
  exists st'. split_and!; try done.
  - intros c Hc. apply Ha. by right.
  - rewrite Hp. unfold MapData_size.
    change (MapData_entries ?m) with (omap id m).
    generalize (0 + length (pendingRequests st)).
    intros n. by induction n.
  - intros requestId. rewrite Hp.
    generalize (0 + length (pendingRequests st)).
    intros n. by induction n.
Qed.

Lemma cancelAllPendingRequests_aborts_all_witness :
  let st := {| pendingRequests := [Some ("a", 0); None; Some ("b", 2)];
               aborted := []; controllers := 3; trace := [] |} in
  ∃ st',
    HttpClient.cancelAllPendingRequests 4 st = (true, st') ∧
    trace st' = trace st ++ cancel_events (MapData_entries (pendingRequests st)) ∧
    (∀ c, c ∈ MapData_values (pendingRequests st) → c ∈ aborted st') ∧
    MapData_size (pendingRequests st') = 0 ∧
    ∀ requestId, MapData_has requestId (pendingRequests st') = false.
Proof.
  intros st. apply (cancelAllPendingRequests_aborts_all st 4). simpl. lia.
Defined.

Lemma take_task_None id ts :
  id ∉ map task_id ts → take_task id ts = None.
Proof.
  induction ts as [|t0 ts IH]; simpl; [done|].
  intros Hnin. apply not_elem_of_cons in Hnin as [Hne Hnin].
  destruct (Nat.eqb_spec (task_id t0) id); [congruence|]. by rewrite IH.
Qed.

Lemma elem_of_map_1 {A B} (f : A → B) (l : list A) x : x ∈ l → f x ∈ map f l.
Proof.
  induction l as [|a l IH]; [by intros ?%elem_of_nil|].
  simpl. rewrite !elem_of_cons. intros [->|?]; auto.
Qed.

Lemma NoDup_map_eq {A B} (f : A → B) (l : list A) x y :
  NoDup (map f l) → x ∈ l → y ∈ l → f x = f y → x = y.
Proof.
  induction l as [|a l IH]; [by intros _ ?%elem_of_nil|].
  simpl. intros [Ha Hl]%NoDup_cons. rewrite !elem_of_cons.
  intros [->|Hx] [->|Hy] Heq; auto.
  - exfalso. apply Ha. rewrite Heq. by apply elem_of_map_1.
  - exfalso. apply Ha. rewrite <- Heq. by apply elem_of_map_1.
Qed.

(** The step that settles a suspended call. *)
Lemma settle_step sys id outcome t rest :
  system_inv sys →
  take_task id (tasks sys) = Some (t, rest) →
  ∃ r,
    step (Settle id outcome) sys =
      Some {| heap := emit (EvDelete (HttpClient.getRequestId (task_call t)))
                        (with_pendingRequests
                           (MapData_delete (HttpClient.getRequestId (task_call t))
                              (pendingRequests (heap sys))) (heap sys));
              tasks := rest;
              outcomes := outcomes sys ++ [(id, r)];
              next_task := next_task sys |}.
Proof.
  intros [_ Htasks _] Htake.
  destruct (take_task_Some _ _ _ _ Htake) as [_ Hperm].
  rewrite Hperm in Htasks. apply Forall_cons in Htasks as [Ht _].
  destruct (from_request_resume t Ht) as (requestId & Hres).
  destruct (Hres outcome (heap sys)) as [Hrun ->].
  simpl. rewrite Htake, Hrun. destruct outcome; by eexists.
Qed.

(** The table after the step that settles a suspended call. *)
Lemma settle_deletes sys id outcome t sys' :
  system_inv sys →
  t ∈ tasks sys → task_id t = id →
  step (Settle id outcome) sys = Some sys' →
  pendingRequests (heap sys') =
    MapData_delete (HttpClient.getRequestId (task_call t)) (pendingRequests (heap sys)).
Proof.
  intros Hinv Ht Hid Hstep.
  assert (id ∈ map task_id (tasks sys)) as Hin by (subst id; by apply elem_of_map_1).
  destruct (take_task_elem id _ Hin) as (t0 & rest & Htake & Ht0).
  destruct (take_task_Some _ _ _ _ Htake) as [Hid0 _].
  assert (NoDup (map task_id (tasks sys))) as Hnd.
  { assert (NoDup (map task_id (tasks sys) ++ (outcomes sys).*1)) as Hall
      by (rewrite (inv_ids _ Hinv); apply NoDup_seq).
    by apply NoDup_app in Hall as [? _]. }
  assert (t0 = t) as -> by (apply (NoDup_map_eq task_id (tasks sys)); congruence).
  destruct (settle_step sys id outcome t rest Hinv Htake) as (r & Hstep').
  rewrite Hstep in Hstep'. by injection Hstep' as ->.
Qed.

(** Settling a suspended call: the table is cleaned, then exactly one
    outcome reaches the caller and the job is over. *)
Lemma settle_delivers sys id outcome :
  system_inv sys →
  id ∈ map task_id (tasks sys) →
  ∃ t sys',
    t ∈ tasks sys ∧ task_id t = id ∧
    step (Settle id outcome) sys = Some sys' ∧
    outcomes sys' = outcomes sys ++
      [(id, match outcome with
            | Resolve response => Returned (data response)
            | Reject reason =>
                Thrown {| axiosError := reason;
                          isCanceled := if String.eqb (name reason) "AbortError"
                                        then Some true else None |}
            end)] ∧
    trace (heap sys') =
      trace (heap sys) ++ [EvDelete (HttpClient.getRequestId (task_call t))] ∧
    (id ∉ (outcomes sys).*1) ∧
    (id ∉ map task_id (tasks sys')) ∧
    ∀ outcome', step (Settle id outcome') sys' = Some sys'.
Proof.
  intros [Hkeys Htasks Hids] Hin.
  destruct (take_task_elem id _ Hin) as (t & rest & Htake & Ht).
  destruct (take_task_Some _ _ _ _ Htake) as [Hid Hperm].
  assert (NoDup (id :: map task_id rest ++ (outcomes sys).*1)) as Hnd.
  { assert (map task_id (tasks sys) ≡ₚ id :: map task_id rest) as Hp
      by (by rewrite Hperm; simpl; rewrite Hid).
    rewrite Hp in Hids. simpl in Hids. rewrite Hids. apply NoDup_seq. }
  apply NoDup_cons in Hnd as [Hnin _].
  apply not_elem_of_app in Hnin as [Hnin1 Hnin2].
  rewrite Forall_forall in Htasks.
  destruct (from_request_resume t (Htasks t Ht)) as (requestId & Hres).
  destruct (Hres outcome (heap sys)) as [Hrun ->].
  assert (∃ sys', step (Settle id outcome) sys = Some sys' ∧
            tasks sys' = rest ∧
            heap sys' = emit (EvDelete (HttpClient.getRequestId (task_call t)))
              (with_pendingRequests
                 (MapData_delete (HttpClient.getRequestId (task_call t))
                    (pendingRequests (heap sys))) (heap sys)) ∧
            outcomes sys' = outcomes sys ++
              [(id, match outcome with
                    | Resolve response => Returned (data response)
                    | Reject reason =>
                        Thrown {| axiosError := reason;
                                  isCanceled := if String.eqb (name reason) "AbortError"
                                                then Some true else None |}
                    end)]) as (sys' & Hstep & Htasks' & Hheap & Houts).
  { simpl. rewrite Htake, Hrun. destruct outcome; eexists; by split_and!. }
  exists t, sys'. split_and!; try done.
  - by rewrite Hheap.
  - by rewrite Htasks'.
  - intros outcome'. simpl. rewrite Htasks'. by rewrite take_task_None.
Qed.

(** C6: in any state the event loop can reach, a pending call whose
    transport call fails with an error that [request] does not take for an
    abort (its [name] is not AbortError) throws that very error to its
    caller, [isCanceled] unset, and the table holds no entry for its
    fingerprint any more; and whatever the settlement (response or error),
    the call deletes the table entry of its fingerprint, leaves the entries
    of the other fingerprints as they were, and then delivers exactly one
    outcome: it had delivered none before, and no later settlement of the
    same call delivers anything more. *)
Theorem request_propagates_failure_once
    (actions : list action) (sys : system) (id : nat) (reason : AxiosError) :
  run actions new_system = Some sys →
  id ∈ map task_id (tasks sys) →
  name reason ≠ "AbortError" →
  (∃ t sys',
     t ∈ tasks sys ∧ task_id t = id ∧
     step (Settle id (Reject reason)) sys = Some sys' ∧
     outcomes sys' = outcomes sys ++
       [(id, Thrown {| axiosError := reason; isCanceled := None |})] ∧
     trace (heap sys') =
       trace (heap sys) ++ [EvDelete (HttpClient.getRequestId (task_call t))] ∧
     MapData_has (HttpClient.getRequestId (task_call t))
       (pendingRequests (heap sys')) = false) ∧
  ∀ outcome, ∃ t sys' r,
    t ∈ tasks sys ∧ task_id t = id ∧
    step (Settle id outcome) sys = Some sys' ∧
    outcomes sys' = outcomes sys ++ [(id, r)] ∧
    match outcome, r with
    | Resolve response, Returned value => value = data response
    | Reject e, Thrown err => axiosError err = e
    | _, _ => False
    end ∧
    trace (heap sys') =
      trace (heap sys) ++ [EvDelete (HttpClient.getRequestId (task_call t))] ∧
    MapData_has (HttpClient.getRequestId (task_call t))
      (pendingRequests (heap sys')) = false ∧
    MapData_get (HttpClient.getRequestId (task_call t))
      (pendingRequests (heap sys')) = None ∧
    (∀ k, k ≠ HttpClient.getRequestId (task_call t) →
          MapData_get k (pendingRequests (heap sys')) =
            MapData_get k (pendingRequests (heap sys))) ∧
    (id ∉ (outcomes sys).*1) ∧
    (id ∉ map task_id (tasks sys')) ∧
    ∀ outcome', step (Settle id outcome') sys' = Some sys'.
Proof.
  intros Hrun Hin Hname.
  destruct (run_inv actions new_system new_system_inv) as (sys0 & Hrun0 & Hinv).
  rewrite Hrun in Hrun0. injection Hrun0 as <-.
  split.
  - destruct (settle_delivers sys id (Reject reason) Hinv Hin)
      as (t & sys' & Ht & Hid & Hstep & Houts & Htrace & _).
    exists t, sys'. split_and!; try done.
    + rewrite Houts. by apply String.eqb_neq in Hname as ->.
    + rewrite (settle_deletes sys id _ t sys' Hinv Ht Hid Hstep).
      apply MapData_has_delete, Hinv.
  - intros outcome.
    destruct (settle_delivers sys id outcome Hinv Hin)
      as (t & sys' & Ht & Hid & Hstep & Houts & Htrace & Hfresh & Hgone & Hover).
    pose proof (settle_deletes sys id _ t sys' Hinv Ht Hid Hstep) as Hp.
    assert (MapData_has (HttpClient.getRequestId (task_call t))
              (pendingRequests (heap sys')) = false) as Hhas
      by (rewrite Hp; apply MapData_has_delete, Hinv).
    exists t, sys'. eexists. split_and!; try done.
    + by destruct outcome.
    + destruct (MapData_get _ (pendingRequests (heap sys'))) eqn:E; [|done].
      assert (is_Some (MapData_get (HttpClient.getRequestId (task_call t))
                         (pendingRequests (heap sys')))) as Hsome by (by rewrite E).
      apply MapData_has_get in Hsome. congruence.
    + intros k Hk. by rewrite Hp, MapData_get_delete_ne.
Qed.

Lemma request_propagates_failure_once_witness :
  let actions := [CallGet "/items" None] in
  let sys := spawn (HttpClient.get "/items" None) new_system in
  (∃ t sys',
     t ∈ tasks sys ∧ task_id t = 0 ∧
     step (Settle 0 (Reject NetworkError)) sys = Some sys' ∧
     outcomes sys' = outcomes sys ++
       [(0, Thrown {| axiosError := NetworkError; isCanceled := None |})] ∧
     trace (heap sys') =
       trace (heap sys) ++ [EvDelete (HttpClient.getRequestId (task_call t))] ∧
     MapData_has (HttpClient.getRequestId (task_call t))
       (pendingRequests (heap sys')) = false) ∧
  ∀ outcome, ∃ t sys' r,
    t ∈ tasks sys ∧ task_id t = 0 ∧
    step (Settle 0 outcome) sys = Some sys' ∧
    outcomes sys' = outcomes sys ++ [(0, r)] ∧
    match outcome, r with
    | Resolve response, Returned value => value = data response
    | Reject e, Thrown err => axiosError err = e
    | _, _ => False
    end ∧
    trace (heap sys') =
      trace (heap sys) ++ [EvDelete (HttpClient.getRequestId (task_call t))] ∧
    MapData_has (HttpClient.getRequestId (task_call t))
      (pendingRequests (heap sys')) = false ∧
    MapData_get (HttpClient.getRequestId (task_call t))
      (pendingRequests (heap sys')) = None ∧
    (∀ k, k ≠ HttpClient.getRequestId (task_call t) →
          MapData_get k (pendingRequests (heap sys')) =
            MapData_get k (pendingRequests (heap sys))) ∧
    (0 ∉ (outcomes sys).*1) ∧
    (0 ∉ map task_id (tasks sys')) ∧
    ∀ outcome', step (Settle 0 outcome') sys' = Some sys'.
Proof.
  intros actions sys.
  apply (request_propagates_failure_once actions sys 0 NetworkError).
  - reflexivity.
  - simpl. apply elem_of_cons. by left.
  - simpl. discriminate.
Defined.

(** C1, at a failing run: a call A is superseded by an identical call B,
    then A settles.  A's clean-up deletes the entry that B registered: B is
    still in flight and not aborted, but the table no longer knows it, and
    a third identical call C starts without aborting B. *)
Theorem superseded_call_deletes_the_current_entry :
  let config := Some [("params", JObject [("page", JNumber 1)])] in
  let requestId := HttpClient.getRequestId
                     [("params", JObject [("page", JNumber 1)]);
                      ("method", JString "GET"); ("url", JString "/items")] in
  let A := CallGet "/items" config in
  let B := CallGet "/items" config in
  let C := CallGet "/items" config in
  let A_settles := Settle 0 (Reject CanceledError) in
  let observe (sys : system) :=
    (map task_id (tasks sys), in_flight sys, aborted (heap sys),
     MapData_get requestId (pendingRequests (heap sys))) in
  observe <$> run [A; B] new_system
    = Some ([0; 1], [requestId; requestId], [0], Some 1) ∧
  observe <$> run [A; B; A_settles] new_system
    = Some ([1], [requestId], [0], None) ∧
  observe <$> run [A; B; A_settles; C] new_system
    = Some ([1; 2], [requestId; requestId], [0], Some 2).
Proof. by vm_compute. Qed.

(** C3, at a failing run: a call is aborted (by an identical later call, or
    by [cancelAllPendingRequests]) and the transport rejects it with its
    cancellation error, named CanceledError; [request] looks for the name
    AbortError and throws the error without [isCanceled]. *)
Theorem aborted_call_is_not_marked_canceled :
  let config := Some [("params", JObject [("page", JNumber 1)])] in
  let A := CallGet "/items" config in
  let B := CallGet "/items" config in
  let A_settles := Settle 0 (Reject CanceledError) in
  let observe (sys : system) := (aborted (heap sys), outcomes sys) in
  observe <$> run [A; B] new_system = Some ([0], []) ∧
  observe <$> run [A; B; A_settles] new_system
    = Some ([0], [(0, Thrown {| axiosError := CanceledError; isCanceled := None |})]) ∧
  observe <$> run [A; CallCancelAll] new_system = Some ([0], []) ∧
  observe <$> run [A; CallCancelAll; A_settles] new_system
    = Some ([0], [(0, Thrown {| axiosError := CanceledError; isCanceled := None |})]).
Proof. by vm_compute. Qed.

(** Only an error named AbortError is marked. *)
Lemma request_marks_AbortError sys id reason :
  system_inv sys →
  id ∈ map task_id (tasks sys) →
  ∃ sys' err,
    step (Settle id (Reject reason)) sys = Some sys' ∧
    outcomes sys' = outcomes sys ++ [(id, Thrown err)] ∧
    axiosError err = reason ∧
    (isCanceled err = Some true ↔ name reason = "AbortError").
Proof.
  intros Hinv Hin.
  destruct (settle_delivers sys id (Reject reason) Hinv Hin)
    as (t & sys' & _ & _ & Hstep & Houts & _).
  eexists sys', _. split_and!; [done|done|done|]. simpl.
  destruct (String.eqb_spec (name reason) "AbortError"); split; congruence.
Qed.

(** ** The wrappers *)

(** C10: [get], [post], [put] and [delete] call [request] with a config in
    which [method] and [url] (and [data], for [post] and [put]) are the
    wrapper's own, whatever the caller's config says; every other field is
    the caller's; and the transport is called with that method, url and
    data. *)
Theorem wrappers_override_method_url_data
    (url : string) (body : JsValue) (config : option RequestConfig) (st : state) :
  let delegates (call : M (promise JsValue)) (method : string)
        (fixed : list (string * JsValue)) :=
    ∃ cfg,
      call = HttpClient.request cfg ∧
      obj_get "method" cfg = JString method ∧
      obj_get "url" cfg = JString url ∧
      (∀ k v, (k, v) ∈ fixed → obj_get k cfg = v) ∧
      (∀ k, k ≠ "method" → k ≠ "url" → k ∉ fixed.*1 →
            obj_get k cfg = obj_get k (spread config)) ∧
      ∃ sent resume st',
        call st = (Pending sent resume, st') ∧
        obj_get "method" sent = JString method ∧
        obj_get "url" sent = JString url ∧
        ∀ k v, (k, v) ∈ fixed → obj_get k sent = v in
  delegates (HttpClient.get url config) "GET" [] ∧
  delegates (HttpClient.post url body config) "POST" [("data", body)] ∧
  delegates (HttpClient.put url body config) "PUT" [("data", body)] ∧
  delegates (HttpClient.delete url config) "DELETE" [].
Proof.
  intros delegates. unfold delegates.
  assert (∀ cfg method (fixed : list (string * JsValue)),
            obj_get "method" cfg = JString method →
            obj_get "url" cfg = JString url →
            (∀ k v, (k, v) ∈ fixed → k ≠ "signal" ∧ obj_get k cfg = v) →
            ∃ sent resume st',
              HttpClient.request cfg st = (Pending sent resume, st') ∧
              obj_get "method" sent = JString method ∧
              obj_get "url" sent = JString url ∧
              ∀ k v, (k, v) ∈ fixed → obj_get k sent = v) as Hsent.
  { intros cfg method fixed Hm Hu Hfixed.
    destruct (request_run cfg st) as (resume & st' & Hrun & _).
    eexists _, resume, st'. split; [exact Hrun|].
    split_and!.
    - by rewrite obj_get_set_ne.
    - by rewrite obj_get_set_ne.
    - intros k v [Hk Hv]%Hfixed. rewrite obj_get_set_ne by done. exact Hv. }
  assert (∀ k v (body' : JsValue), (k, v) ∈ [("data", body')] → k = "data" ∧ v = body')
    as Hdata.
  { intros k v body' Hin. apply list_elem_of_singleton in Hin. by injection Hin. }
  split_and!.
  - eexists. split; [reflexivity|]. split_and!.
    + rewrite obj_get_set_ne by done. apply obj_get_set_eq.
    + apply obj_get_set_eq.
    + by intros k v ?%elem_of_nil.
    + intros k Hm Hu _. by rewrite !obj_get_set_ne.
    + apply Hsent.
      * rewrite obj_get_set_ne by done. apply obj_get_set_eq.
      * apply obj_get_set_eq.
      * by intros k v ?%elem_of_nil.
  - eexists. split; [reflexivity|]. split_and!.
    + rewrite !obj_get_set_ne by done. apply obj_get_set_eq.
    + rewrite obj_get_set_ne by done. apply obj_get_set_eq.
    + intros k v [-> ->]%Hdata. apply obj_get_set_eq.
    + intros k Hm Hu Hd. rewrite !obj_get_set_ne; try done.
      intros <-. apply Hd. simpl. apply elem_of_cons. by left.
    + apply Hsent.
      * rewrite !obj_get_set_ne by done. apply obj_get_set_eq.
      * rewrite obj_get_set_ne by done. apply obj_get_set_eq.
      * intros k v [-> ->]%Hdata. split; [done|]. apply obj_get_set_eq.
  - eexists. split; [reflexivity|]. split_and!.
    + rewrite !obj_get_set_ne by done. apply obj_get_set_eq.
    + rewrite obj_get_set_ne by done. apply obj_get_set_eq.
    + intros k v [-> ->]%Hdata. apply obj_get_set_eq.
    + intros k Hm Hu Hd. rewrite !obj_get_set_ne; try done.
      intros <-. apply Hd. simpl. apply elem_of_cons. by left.
    + apply Hsent.
      * rewrite !obj_get_set_ne by done. apply obj_get_set_eq.
      * rewrite obj_get_set_ne by done. apply obj_get_set_eq.
      * intros k v [-> ->]%Hdata. split; [done|]. apply obj_get_set_eq.
  - eexists. split; [reflexivity|]. split_and!.
    + rewrite obj_get_set_ne by done. apply obj_get_set_eq.
    + apply obj_get_set_eq.
    + by intros k v ?%elem_of_nil.
    + intros k Hm Hu _. by rewrite !obj_get_set_ne.
    + apply Hsent.
      * rewrite obj_get_set_ne by done. apply obj_get_set_eq.
      * apply obj_get_set_eq.
      * by intros k v ?%elem_of_nil.
Qed.

(** ** The fingerprint *)

(** C2, counterexample: two descriptors with the same method, url and
    query parameters, the parameters written in a different order, are
    equal under canonical serialization and have different fingerprints. *)
Lemma fingerprint_follows_key_order :
  let d1 := [("method", JString "GET"); ("url", JString "/items");
             ("params", JObject [("page", JNumber 1); ("size", JNumber 20)])] in
  let d2 := [("method", JString "GET"); ("url", JString "/items");
             ("params", JObject [("size", JNumber 20); ("page", JNumber 1)])] in
  spec_same_descriptor d1 d2 ∧
  HttpClient.getRequestId d1 ≠ HttpClient.getRequestId d2.
Proof. split; [by vm_compute|]. vm_compute. discriminate. Qed.

(** C2 (amended): two configs whose [method], [url], [params] and [data]
    are the same values, the keys inside [params] and [data] in the same
    order, have the same fingerprint, whatever the order of the fields of
    the configs themselves and whatever else they hold. *)
Theorem fingerprint_of_same_fields (d1 d2 : RequestConfig) :
  obj_get "method" d1 = obj_get "method" d2 →
  obj_get "url" d1 = obj_get "url" d2 →
  obj_get "params" d1 = obj_get "params" d2 →
  obj_get "data" d1 = obj_get "data" d2 →
  HttpClient.getRequestId d1 = HttpClient.getRequestId d2.
Proof. apply getRequestId_fields. Qed.

Lemma fingerprint_of_same_fields_witness :
  let d1 := [("url", JString "/items"); ("method", JString "GET");
             ("params", JObject [("page", JNumber 1); ("size", JNumber 20)])] in
  let d2 := [("headers", JObject [("Accept", JString "text/html")]);
             ("params", JObject [("page", JNumber 1); ("size", JNumber 20)]);
             ("method", JString "GET"); ("timeout", JNumber 5000);
             ("url", JString "/items")] in
  HttpClient.getRequestId d1 = HttpClient.getRequestId d2.
Proof.
  intros d1 d2. apply (fingerprint_of_same_fields d1 d2); reflexivity.
Defined.

(** C8, counterexample: two configs that agree on method, url, params and
    data and differ in [timeout] and [signal]; the fingerprints are equal,
    but the [signal] of the first (that of a controller of the caller's)
    does not reach the transport. *)
Lemma caller_signal_is_not_forwarded :
  let c1 := [("url", JString "/items"); ("timeout", JNumber 1000);
             ("signal", JSignal 7)] in
  let c2 := [("url", JString "/items"); ("timeout", JNumber 5000)] in
  HttpClient.getRequestId c1 = HttpClient.getRequestId c2 ∧
  ∃ sent resume st',
    HttpClient.request c1 new_HttpClient = (Pending sent resume, st') ∧
    ¬ (∀ k, k ≠ "method" → k ≠ "url" → k ≠ "params" → k ≠ "data" →
            obj_get k sent = obj_get k c1).
Proof.
  intros c1 c2. split; [reflexivity|].
  destruct (request_run c1 new_HttpClient) as (resume & st' & Hrun & _).
  eexists _, resume, st'. split; [exact Hrun|].
  intros H. assert (obj_get "signal" (obj_set "signal" (JSignal 0) c1) = JSignal 7) as Hs.
  { by apply H. }
  discriminate Hs.
Qed.

(** C8 (amended): two configs that agree on method, url, params and data
    have the same fingerprint whatever their other fields, and the
    transport is called with every field of the config as the caller gave
    it, except [signal], which is that of the call's own controller. *)
Theorem other_fields_ignored_and_forwarded (c1 c2 : RequestConfig) (st : state) :
  obj_get "method" c1 = obj_get "method" c2 →
  obj_get "url" c1 = obj_get "url" c2 →
  obj_get "params" c1 = obj_get "params" c2 →
  obj_get "data" c1 = obj_get "data" c2 →
  HttpClient.getRequestId c1 = HttpClient.getRequestId c2 ∧
  ∃ sent resume st',
    HttpClient.request c1 st = (Pending sent resume, st') ∧
    (∀ k, k ≠ "signal" → obj_get k sent = obj_get k c1) ∧
    obj_get "signal" sent = JSignal (controllers st).
Proof.
  intros Hm Hu Hp Hd. split; [by apply getRequestId_fields|].
  destruct (request_run c1 st) as (resume & st' & Hrun & _).
  eexists _, resume, st'. split; [exact Hrun|]. split.
  - intros k Hk. by apply obj_get_set_ne.
  - apply obj_get_set_eq.
Qed.

Lemma other_fields_ignored_and_forwarded_witness :
  let c1 := [("url", JString "/items"); ("timeout", JNumber 1000);
             ("headers", JObject [("Accept", JString "text/html")])] in
  let c2 := [("url", JString "/items"); ("timeout", JNumber 5000)] in
  HttpClient.getRequestId c1 = HttpClient.getRequestId c2 ∧
  ∃ sent resume st',
    HttpClient.request c1 new_HttpClient = (Pending sent resume, st') ∧
    (∀ k, k ≠ "signal" → obj_get k sent = obj_get k c1) ∧
    obj_get "signal" sent = JSignal (controllers new_HttpClient).
Proof.
  intros c1 c2.
  apply (other_fields_ignored_and_forwarded c1 c2 new_HttpClient); reflexivity.
Defined.

(** ** [JSON.stringify] loses nothing on JSON data *)

Local Arguments String.append !s1 s2 : simpl nomatch.

Lemma append_assoc (a b c : string) : (a +:+ b) +:+ c = a +:+ (b +:+ c).
Proof. induction a as [|x a IH]; simpl; [done|]. by rewrite IH. Qed.

(** *** Strings: the quoted form can be read back *)

Lemma unquote_head_QuoteJSONChar c r :
  unquote_head (QuoteJSONChar c +:+ r) = Some (c, r).
Proof. by destruct c as [[] [] [] [] [] [] [] []]. Qed.

Lemma QuoteJSONChars_inj s :
  ∀ s' r r',
    QuoteJSONChars s +:+ String dquote r = QuoteJSONChars s' +:+ String dquote r' →
    s = s' ∧ r = r'.
Proof.
  induction s as [|c s IH]; intros [|c' s'] r r' H; simpl in H.
  - by injection H as ->.
  - rewrite append_assoc in H. apply (f_equal unquote_head) in H.
    by rewrite unquote_head_QuoteJSONChar in H.
  - rewrite append_assoc in H. apply (f_equal unquote_head) in H.
    by rewrite unquote_head_QuoteJSONChar in H.
  - rewrite !append_assoc in H. apply (f_equal unquote_head) in H.
    rewrite !unquote_head_QuoteJSONChar in H. injection H as -> H.
    by destruct (IH _ _ _ H) as [-> ->].
Qed.

Lemma QuoteJSONString_inj s s' r r' :
  QuoteJSONString s +:+ r = QuoteJSONString s' +:+ r' → s = s' ∧ r = r'.
Proof.
  unfold QuoteJSONString. simpl. rewrite !append_assoc. simpl.
  intros [= H]. by apply QuoteJSONChars_inj.
Qed.

(** *** Numbers: the text of a number up to a delimiter, and the number
    read back from its text *)

Lemma numeric_split s :
  ∀ s' r r',
    numeric s = true → numeric s' = true →
    delimited r = true → delimited r' = true →
    s +:+ r = s' +:+ r' → s = s' ∧ r = r'.
Proof.
  induction s as [|c s IH]; intros [|c' s'] r r' Hs Hs' Hr Hr' H; simpl in *.
  - done.
  - subst r. simpl in Hr. apply andb_true_iff in Hs' as [Hc _].
    by rewrite Hc in Hr.
  - subst r'. simpl in Hr'. apply andb_true_iff in Hs as [Hc _].
    by rewrite Hc in Hr'.
  - injection H as -> H.
    apply andb_true_iff in Hs as [_ Hs]. apply andb_true_iff in Hs' as [_ Hs'].
    by destruct (IH _ _ _ Hs Hs' Hr Hr' H) as [-> ->].
Qed.

Lemma numeric_string_of_uint d : numeric (NilEmpty.string_of_uint d) = true.
Proof. induction d; simpl; done. Qed.

Lemma forallb_Forall_true {A} (f : A → bool) l :
  forallb f l = true → Forall (λ x, f x = true) l.
Proof.
  induction l as [|x l IH]; simpl; [by constructor|].
  intros [Hx Hl]%andb_true_iff. constructor; auto.
Qed.

Lemma decimal_of_Z_numeric n : numeric (decimal_of_Z n) = true.
Proof.
  unfold decimal_of_Z, NilZero.string_of_int, NilZero.string_of_uint.
  destruct (Z.to_int n) as [d|d]; destruct d; simpl;
    try done; apply numeric_string_of_uint.
Qed.

Lemma decimal_of_Z_inj n n' : decimal_of_Z n = decimal_of_Z n' → n = n'.
Proof.
  unfold decimal_of_Z. intros H.
  apply (f_equal NilZero.int_of_string) in H.
  assert (∀ z, NilZero.int_of_string (NilZero.string_of_int (Z.to_int z))
               = Some (Z.to_int z)) as Hparse.
  { intros z. apply NilZero.isi; destruct z; simpl; try done;
      intros [= Hp]; by apply Unsigned.to_uint_nonnil in Hp. }
  rewrite !Hparse in H. injection H as H. by apply DecimalZ.to_int_inj.
Qed.

Lemma numeric_chars s :
  numeric s = true → Forall (λ c, is_numchar c = true) (list_ascii_of_string s).
Proof.
  induction s as [|c s IH]; simpl; [by constructor|].
  intros [Hc Hs]%andb_true_iff. constructor; auto.
Qed.

Lemma numeric_of_chars l :
  Forall (λ c, is_numchar c = true) l → numeric (string_of_list_ascii l) = true.
Proof. induction 1 as [|c l Hc Hl IH]; simpl; [done|]. by rewrite Hc, IH. Qed.

Lemma is_digit_numchar c : is_digit c = true → is_numchar c = true.
Proof. unfold is_digit, is_numchar. cbv zeta. intros ->. by rewrite !orb_true_r. Qed.

Lemma canonical_digits_spec d :
  canonical_digits d = true →
  Forall (λ c, is_digit c = true) d ∧
  (∃ c rest, d = c :: rest ∧ c ≠ "0"%char) ∧
  (∃ c, last d = Some c ∧ c ≠ "0"%char).
Proof.
  unfold canonical_digits.
  intros [[Hd Hh]%andb_true_iff Hl]%andb_true_iff.
  split; [by apply forallb_Forall_true|]. split.
  - destruct d as [|c rest]; [done|]. exists c, rest. split; [done|].
    by apply Ascii.eqb_neq, negb_true_iff.
  - destruct (last d) as [c|]; [|done]. exists c. split; [done|].
    by apply Ascii.eqb_neq, negb_true_iff.
Qed.

Lemma split_first (c : ascii) l1 :
  ∀ l2 r1 r2, c ∉ l1 → c ∉ l2 → l1 ++ c :: r1 = l2 ++ c :: r2 → l1 = l2 ∧ r1 = r2.
Proof.
  induction l1 as [|x l1 IH]; intros [|y l2] r1 r2 H1 H2 H; simpl in H.
  - by injection H.
  - injection H as -> _. exfalso. apply H2. by left.
  - injection H as -> _. exfalso. apply H1. by left.
  - injection H as -> H. apply not_elem_of_cons in H1 as [_ H1].
    apply not_elem_of_cons in H2 as [_ H2].
    by destruct (IH _ _ _ H1 H2 H) as [-> ->].
Qed.

Lemma trailing_zeros_inj (d d' : list ascii) c c' a :
  ∀ a', last d = Some c → c ≠ "0"%char → last d' = Some c' → c' ≠ "0"%char →
  d ++ replicate a "0"%char = d' ++ replicate a' "0"%char → d = d' ∧ a = a'.
Proof.
  induction a as [|a IH]; intros [|a'] Hd Hc Hd' Hc' H.
  - simpl in H. by rewrite !app_nil_r in H.
  - exfalso. simpl replicate at 1 in H. rewrite app_nil_r in H. subst d.
    rewrite replicate_S_end, app_assoc, last_snoc in Hd. congruence.
  - exfalso. simpl replicate at 2 in H. rewrite app_nil_r in H. subst d'.
    rewrite replicate_S_end, app_assoc, last_snoc in Hd'. congruence.
  - rewrite !replicate_S_end, !app_assoc in H. apply app_inj_tail in H as [H _].
    by destruct (IH _ Hd Hc Hd' Hc' H) as [-> ->].
Qed.

Lemma leading_zeros_inj (d d' : list ascii) c c' rest rest' a :
  ∀ a', d = c :: rest → c ≠ "0"%char → d' = c' :: rest' → c' ≠ "0"%char →
  replicate a "0"%char ++ d = replicate a' "0"%char ++ d' → d = d' ∧ a = a'.
Proof.
  induction a as [|a IH]; intros [|a'] Hd Hc Hd' Hc' H; simpl in H.
  - done.
  - subst d. injection H as -> _. done.
  - subst d'. injection H as <- _. done.
  - injection H as H. by destruct (IH _ Hd Hc Hd' Hc' H) as [-> ->].
Qed.

Lemma exponent_chars_inj e e' : exponent_chars e = exponent_chars e' → e = e'.
Proof.
  assert (∀ s s', list_ascii_of_string s = list_ascii_of_string s' → s = s') as Hinj.
  { intros s s' H. apply (f_equal string_of_list_ascii) in H.
    by rewrite !string_of_list_ascii_of_string in H. }
  unfold exponent_chars.
  destruct (Z.ltb_spec e 0) as [He|He], (Z.ltb_spec e' 0) as [He'|He']; simpl; intros H.
  - by apply decimal_of_Z_inj, Hinj.
  - destruct e; try lia. discriminate H.
  - destruct e'; try lia. discriminate H.
  - injection H as H. by apply decimal_of_Z_inj, Hinj.
Qed.

Section forms.
Context (d : list ascii) (c : ascii) (rest : list ascii).
Hypothesis digits : Forall (λ c, is_digit c = true) d.
Hypothesis first_digit : d = c :: rest.
Hypothesis first_nonzero : c ≠ "0"%char.

Lemma digits_without (x : ascii) : is_digit x = false → x ∉ d.
Proof.
  intros Hx Hin. rewrite Forall_forall in digits. apply digits in Hin. congruence.
Qed.

Lemma form_integer a : form (d ++ replicate a "0"%char) = 1.
Proof.
  set (l := d ++ replicate a "0"%char).
  assert ("e"%char ∉ l) as He.
  { unfold l. rewrite elem_of_app. intros [H|[H _]%elem_of_replicate]; [|done].
    by apply digits_without in H. }
  assert ("."%char ∉ l) as Hp.
  { unfold l. rewrite elem_of_app. intros [H|[H _]%elem_of_replicate]; [|done].
    by apply digits_without in H. }
  unfold form.
  by rewrite (bool_decide_eq_false_2 _ He), (bool_decide_eq_false_2 _ Hp).
Qed.

Lemma form_point m :
  0 < m → form (take m d ++ "."%char :: drop m d) = 2.
Proof.
  intros Hm.
  set (l := take m d ++ "."%char :: drop m d).
  assert ("e"%char ∉ l) as He.
  { unfold l. rewrite elem_of_app, elem_of_cons.
    intros [H|[H|H]]; [apply (subseteq_take m d) in H|done|
                       apply (subseteq_drop m d) in H];
      by apply digits_without in H. }
  assert ("."%char ∈ l) as Hp.
  { unfold l. rewrite elem_of_app, elem_of_cons. right. by left. }
  assert (head l ≠ Some "0"%char) as Hz.
  { unfold l. rewrite first_digit. destruct m; [lia|]. simpl. congruence. }
  unfold form.
  by rewrite (bool_decide_eq_false_2 _ He), (bool_decide_eq_true_2 _ Hp),
    (bool_decide_eq_false_2 _ Hz).
Qed.

Lemma form_fraction a :
  form ("0"%char :: "."%char :: replicate a "0"%char ++ d) = 3.
Proof.
  set (l := "0"%char :: "."%char :: replicate a "0"%char ++ d).
  assert ("e"%char ∉ l) as He.
  { unfold l. rewrite !elem_of_cons, elem_of_app.
    intros [H|[H|[[H _]%elem_of_replicate|H]]]; try done.
    by apply digits_without in H. }
  assert ("."%char ∈ l) as Hp.
  { unfold l. rewrite !elem_of_cons. right. by left. }
  unfold form.
  by rewrite (bool_decide_eq_false_2 _ He), (bool_decide_eq_true_2 _ Hp).
Qed.

Lemma form_exponent e :
  form match d with
       | [] => []
       | [c] => c :: "e"%char :: exponent_chars e
       | c :: rest => c :: "."%char :: rest ++ "e"%char :: exponent_chars e
       end = 4.
Proof.
  unfold form. rewrite bool_decide_eq_true_2; [done|].
  rewrite first_digit. destruct rest as [|c' rest'].
  - apply elem_of_cons. right. by left.
  - do 2 (apply elem_of_cons; right). apply elem_of_app. right. by left.
Qed.

Lemma form_Number_chars n : form (Number_chars d n) = Number_form d n.
Proof.
  unfold Number_chars, Number_form. cbv zeta.
  destruct ((Z.of_nat (length d) <=? n)%Z && (n <=? 21)%Z); [apply form_integer|].
  destruct ((0 <? n)%Z && (n <=? 21)%Z) eqn:E; [apply form_point; lia|].
  destruct ((-6 <? n)%Z && (n <=? 0)%Z); [apply form_fraction|].
  apply form_exponent.
Qed.
End forms.

Lemma Number_chars_inj d n d' n' :
  canonical_digits d = true → canonical_digits d' = true →
  Number_chars d n = Number_chars d' n' → d = d' ∧ n = n'.
Proof.
  intros (Hd & (c & rest & Hc & Hc0) & (z & Hz & Hz0))%canonical_digits_spec.
  intros (Hd' & (c' & rest' & Hc' & Hc0') & (z' & Hz' & Hz0'))%canonical_digits_spec.
  intros H. pose proof (f_equal form H) as Hform.
  rewrite (form_Number_chars d c rest), (form_Number_chars d' c' rest') in Hform by done.
  revert H Hform. unfold Number_chars, Number_form. cbv zeta.
  destruct ((Z.of_nat (length d) <=? n)%Z && (n <=? 21)%Z) eqn:E1;
    [|destruct ((0 <? n)%Z && (n <=? 21)%Z) eqn:E2;
      [|destruct ((-6 <? n)%Z && (n <=? 0)%Z) eqn:E3]];
  (destruct ((Z.of_nat (length d') <=? n')%Z && (n' <=? 21)%Z) eqn:E1';
    [|destruct ((0 <? n')%Z && (n' <=? 21)%Z) eqn:E2';
      [|destruct ((-6 <? n')%Z && (n' <=? 0)%Z) eqn:E3']]);
  intros H Hform; try discriminate Hform; clear Hform.
  - apply (trailing_zeros_inj d d' z z') in H as [-> Ha]; [|done..].
    split; [done|lia].
  - apply split_first in H as [Ht Hdr];
      [|intros Hin%(subseteq_take _ d); by apply (digits_without d Hd) in Hin
       |intros Hin%(subseteq_take _ d'); by apply (digits_without d' Hd') in Hin].
    assert (d = d') as <-.
    { rewrite <- (take_drop (Z.to_nat n) d), <- (take_drop (Z.to_nat n') d'). congruence. }
    split; [done|]. apply (f_equal length) in Ht. rewrite !length_take in Ht. lia.
  - injection H as H.
    apply (leading_zeros_inj d d' c c' rest rest') in H as [-> Ha]; [|done..].
    split; [done|lia].
  - subst d d'. destruct rest as [|x rest], rest' as [|x' rest']; try discriminate H.
    + injection H as -> H. apply exponent_chars_inj in H. split; [done|lia].
    + injection H as -> -> H. apply Forall_cons in Hd as [_ [_ Hd]%Forall_cons].
      apply Forall_cons in Hd' as [_ [_ Hd']%Forall_cons].
      apply split_first in H as [-> H];
        [|by apply digits_without|by apply digits_without].
      apply exponent_chars_inj in H. split; [done|lia].
Qed.

Lemma Number_chars_head d n :
  canonical_digits d = true →
  ∃ c rest, Number_chars d n = c :: rest ∧ is_digit c = true.
Proof.
  intros (Hd & (c & rest & -> & Hc0) & _)%canonical_digits_spec.
  apply Forall_cons in Hd as [Hc Hd].
  unfold Number_chars. cbv zeta.
  destruct ((Z.of_nat (length (c :: rest)) <=? n)%Z && (n <=? 21)%Z); [by eexists _, _|].
  destruct ((0 <? n)%Z && (n <=? 21)%Z) eqn:E.
  { destruct (Z.to_nat n) eqn:En; [lia|]. by eexists _, _. }
  destruct ((-6 <? n)%Z && (n <=? 0)%Z); [by eexists _, _|].
  destruct rest; by eexists _, _.
Qed.

Lemma Number_chars_numeric d n :
  canonical_digits d = true →
  Forall (λ c, is_numchar c = true) (Number_chars d n).
Proof.
  intros (Hd & (c & rest & Hc & Hc0) & _)%canonical_digits_spec.
  assert (Forall (λ c, is_numchar c = true) d) as Hnum.
  { eapply Forall_impl; [exact Hd|]. apply is_digit_numchar. }
  assert (∀ e, Forall (λ c, is_numchar c = true) (exponent_chars e)) as Hexp.
  { intros e. unfold exponent_chars. apply Forall_app. split.
    - destruct (e <? 0)%Z; by repeat constructor.
    - apply numeric_chars, decimal_of_Z_numeric. }
  unfold Number_chars. cbv zeta.
  destruct ((Z.of_nat (length d) <=? n)%Z && (n <=? 21)%Z).
  { apply Forall_app. split; [done|]. by apply Forall_replicate. }
  destruct ((0 <? n)%Z && (n <=? 21)%Z).
  { apply Forall_app. split; [by apply Forall_take|].
    constructor; [done|]. by apply Forall_drop. }
  destruct ((-6 <? n)%Z && (n <=? 0)%Z).
  { do 2 (constructor; [done|]). apply Forall_app. split; [|done].
    by apply Forall_replicate. }
  subst d. apply Forall_cons in Hnum as [Hc Hrest]. destruct rest as [|x rest].
  - do 2 (constructor; [done|]). apply Hexp.
  - do 2 (constructor; [done|]). apply Forall_app. split; [done|].
    constructor; [done|]. apply Hexp.
Qed.

Lemma Number_toString_numeric x :
  json_number x = true → numeric (Number_toString x) = true.
Proof.
  destruct x as [| |negative|negative digits n]; try done. simpl.
  intros Hd. apply numeric_of_chars, Forall_app. split.
  - destruct negative; by repeat constructor.
  - by apply Number_chars_numeric.
Qed.

Lemma Number_toString_head x :
  json_number x = true →
  ∃ c s, Number_toString x = String c s ∧ is_numchar c = true.
Proof.
  intros Hx. pose proof (Number_toString_numeric x Hx) as Hn.
  destruct (Number_toString x) as [|c s] eqn:E.
  - exfalso. destruct x as [| |negative|negative digits n]; try done.
    simpl in Hx, E. destruct (Number_chars_head _ n Hx) as (c & rest & Hc & _).
    rewrite Hc in E. by destruct negative.
  - simpl in Hn. apply andb_true_iff in Hn as [Hc _]. by exists c, s.
Qed.

Lemma Number_toString_inj x y :
  json_number x = true → json_number y = true →
  Number_toString x = Number_toString y → x = y.
Proof.
  assert (∀ l l', string_of_list_ascii l = string_of_list_ascii l' → l = l') as Hinj.
  { intros l l' H. apply (f_equal list_ascii_of_string) in H.
    by rewrite !list_ascii_of_string_of_list_ascii in H. }
  assert (∀ negative digits n,
            canonical_digits (list_ascii_of_string digits) = true →
            Number_toString (Finite negative digits n) ≠ "0"%string) as Hzero.
  { intros negative digits n Hd H. change "0"%string with (string_of_list_ascii ["0"%char]) in H.
    apply Hinj in H.
    pose proof (form_Number_chars (list_ascii_of_string digits)) as Hform.
    apply canonical_digits_spec in Hd as (Hd & (c & rest & Hc & Hc0) & _).
    specialize (Hform c rest Hd Hc Hc0 n).
    destruct negative; [discriminate H|]. simpl in H. rewrite H in Hform.
    unfold Number_form in Hform. cbv zeta in Hform.
    unfold Number_chars in H. cbv zeta in H.
    destruct ((Z.of_nat (length (list_ascii_of_string digits)) <=? n)%Z && (n <=? 21)%Z);
      [|repeat destruct (_ && _); discriminate Hform].
    rewrite Hc in H. injection H as H _. done. }
  destruct x as [| |[]|negative digits n]; try done;
    destruct y as [| |[]|negative' digits' n']; try done; intros Hx Hy H.
  - symmetry in H. by apply Hzero in H.
  - by apply Hzero in H.
  - simpl in Hx, Hy, H. apply Hinj in H.
    destruct (Number_chars_head _ n Hx) as (c & rest & Hc & Hdc).
    destruct (Number_chars_head _ n' Hy) as (c' & rest' & Hc' & Hdc').
    assert (negative = negative' ∧
            Number_chars (list_ascii_of_string digits) n =
            Number_chars (list_ascii_of_string digits') n') as [-> H'].
    { destruct negative, negative'; simpl in H.
      - by injection H.
      - rewrite Hc' in H. injection H as <- _. done.
      - rewrite Hc in H. injection H as -> _. done.
      - done. }
    apply Number_chars_inj in H' as [Hdig ->]; [|done..].
    apply (f_equal string_of_list_ascii) in Hdig.
    rewrite !string_of_list_ascii_of_string in Hdig. by subst.
Qed.

(** *** Values *)

(** Induction on values, through the arrays and the objects. *)
Lemma JsValue_nested_ind (P : JsValue → Prop) :
  P JUndefined → P JNull → (∀ b, P (JBool b)) → (∀ n, P (JNumber n)) →
  (∀ s, P (JString s)) →
  (∀ l, Forall P l → P (JArray l)) →
  (∀ o, Forall (λ p, P p.2) o → P (JObject o)) →
  (∀ c, P (JSignal c)) →
  ∀ v, P v.
Proof.
  intros Hundefined Hnull Hbool Hnumber Hstring Harray Hobject Hsignal.
  fix IH 1. intros [| |b|n|s|l|o|c].
  - exact Hundefined.
  - exact Hnull.
  - apply Hbool.
  - apply Hnumber.
  - apply Hstring.
  - apply Harray. induction l as [|e l IHl]; constructor; [apply IH|exact IHl].
  - apply Hobject. induction o as [|[k x] o IHo]; constructor; [apply IH|exact IHo].
  - apply Hsignal.
Qed.

Lemma SerializeJSONProperty_array l :
  SerializeJSONProperty (JArray l) = Some (SerializeJSONArray l).
Proof. reflexivity. Qed.

Lemma SerializeJSONProperty_object o :
  SerializeJSONProperty (JObject o) = Some (SerializeJSONObject o).
Proof. reflexivity. Qed.

Lemma json_data_array l : json_data (JArray l) = forallb json_data l.
Proof. simpl. by induction l as [|e l ->]. Qed.

Lemma json_data_object o : json_data (JObject o) = forallb (λ p, json_data p.2) o.
Proof. simpl. induction o as [|[k x] o IH]; [done|]. simpl. by rewrite IH. Qed.

Lemma SerializeJSONItems_ser l : SerializeJSONItems l = map ser l.
Proof.
  induction l as [|e l IH]; simpl; [done|].
  unfold ser at 1. destruct (SerializeJSONProperty e); simpl; by rewrite IH.
Qed.

Lemma json_data_Some v : json_data v = true → SerializeJSONProperty v = Some (ser v).
Proof. unfold ser. by destruct v. Qed.

Lemma SerializeJSONMembers_ser o :
  forallb (λ p, json_data p.2) o = true →
  SerializeJSONMembers o = map ser_member o.
Proof.
  induction o as [|[k x] o IH]; simpl; [done|].
  intros [Hx Ho]%andb_true_iff. rewrite (json_data_Some x Hx), IH by done.
  done.
Qed.

Lemma json_number_finite x : json_number x = true → Number_isFinite x = true.
Proof. by destruct x. Qed.

Lemma head_kind_ser v r : json_data v = true → head_kind (ser v +:+ r) = kind v.
Proof.
  destruct v as [| |[]|x| | | |]; try done.
  unfold ser. simpl. intros Hx. rewrite (json_number_finite x Hx).
  destruct (Number_toString_head x Hx) as (c & s & -> & Hc). simpl. by rewrite Hc.
Qed.

Lemma head_kind_ser_member p r : head_kind (ser_member p +:+ r) = 3.
Proof. done. Qed.

(** A list of items between commas, up to the closing bracket. *)
Section joined.
Context {A : Type} (text : A → string) (good : A → Prop) (close : ascii).
Hypothesis close_delimits : is_numchar close = false.
Hypothesis close_not_comma : close ≠ ","%char.
Hypothesis close_kind : ∀ r, head_kind (String close r) = 6.
Hypothesis text_kind : ∀ x r, good x → head_kind (text x +:+ r) ≠ 6.

Lemma join_comma_cons x l r :
  join_comma (map text (x :: l)) +:+ String close r =
    text x +:+ match l with
               | [] => String close r
               | _ :: _ => String "," (join_comma (map text l) +:+ String close r)
               end.
Proof. destruct l; simpl; [done|]. by rewrite !append_assoc. Qed.

Lemma join_comma_inj l :
  Forall (readable text good) l →
  Forall good l →
  ∀ l' r r',
    Forall good l' →
    join_comma (map text l) +:+ String close r =
      join_comma (map text l') +:+ String close r' →
    l = l' ∧ r = r'.
Proof.
  induction 1 as [|x l Hx Hl IH]; intros Hgl [|x' l'] r r' Hgood H.
  - by injection H as ->.
  - rewrite join_comma_cons in H. apply (f_equal head_kind) in H.
    simpl map in H. simpl join_comma in H. simpl append in H.
    rewrite close_kind in H. symmetry in H.
    apply Forall_cons in Hgood as [Hx' _]. by apply text_kind in H.
  - rewrite join_comma_cons in H. apply (f_equal head_kind) in H.
    simpl map in H. simpl join_comma in H. simpl append in H.
    rewrite close_kind in H.
    apply Forall_cons in Hgl as [Hgx _]. by apply text_kind in H.
  - apply Forall_cons in Hgood as [Hx' Hgood].
    apply Forall_cons in Hgl as [_ Hgl].
    rewrite (join_comma_cons x l r), (join_comma_cons x' l' r') in H.
    apply Hx in H as [<- H]; [|done| |].
    + destruct l as [|y l], l' as [|y' l']; try by injection H.
      assert (join_comma (map text (y :: l)) +:+ String close r =
              join_comma (map text (y' :: l')) +:+ String close r') as H'
        by congruence.
      by destruct (IH Hgl _ _ _ Hgood H') as [<- <-].
    + destruct l; simpl; [by rewrite close_delimits|done].
    + destruct l'; simpl; [by rewrite close_delimits|done].
Qed.
End joined.

(** Two JSON data with the same text, each followed by a delimiter, are
    the same value. *)
Lemma ser_inj v :
  json_data v = true →
  ∀ v' r r',
    json_data v' = true → delimited r = true → delimited r' = true →
    ser v +:+ r = ser v' +:+ r' → v = v' ∧ r = r'.
Proof.
  induction v as [| |b|n|s|l IH|o IH|c] using JsValue_nested_ind;
    intros Hv v' r r' Hv' Hr Hr' H; try discriminate Hv;
    pose proof (f_equal head_kind H) as Hk; rewrite !head_kind_ser in Hk by done;
    destruct v' as [| |b'|n'|s'|l'|o'|c']; try discriminate Hk; try discriminate Hv'.
  - by injection H as ->.
  - destruct b, b'; try discriminate H; by injection H as ->.
  - unfold ser in H. simpl in H, Hv, Hv'.
    rewrite !json_number_finite in H by done.
    apply numeric_split in H as [H ->];
      auto using Number_toString_numeric.
    by apply Number_toString_inj in H as ->.
  - unfold ser in H. simpl in H.
    by apply QuoteJSONString_inj in H as [-> ->].
  - unfold ser in H. rewrite !SerializeJSONProperty_array in H.
    unfold SerializeJSONArray in H. rewrite !SerializeJSONItems_ser in H.
    simpl in H. rewrite !append_assoc in H. simpl in H. injection H as H.
    rewrite json_data_array in Hv, Hv'.
    apply forallb_Forall_true in Hv, Hv'.
    apply (join_comma_inj ser (λ x, json_data x = true)) in H as [-> ->]; try done.
    + intros x r0 Hx. rewrite head_kind_ser by done. by destruct x.
    + rewrite Forall_forall in IH, Hv. apply Forall_forall.
      intros x Hx x' r0 r0' Hx' Hr0 Hr0' Hser.
      apply (IH x Hx) in Hser; try done. by apply Hv.
  - unfold ser in H. rewrite !SerializeJSONProperty_object in H.
    unfold SerializeJSONObject in H.
    rewrite json_data_object in Hv, Hv'.
    rewrite !SerializeJSONMembers_ser in H by done.
    simpl in H. rewrite !append_assoc in H. simpl in H. injection H as H.
    apply forallb_Forall_true in Hv, Hv'.
    apply (join_comma_inj ser_member (λ p, json_data p.2 = true)) in H as [-> ->];
      try done.
    + rewrite Forall_forall in IH, Hv. apply Forall_forall.
      intros [k x] Hx [k' x'] r0 r0' Hx' Hr0 Hr0' Hser.
      unfold ser_member in Hser. cbn [fst snd] in Hser.
      rewrite !append_assoc in Hser.
      apply QuoteJSONString_inj in Hser as [-> Hser].
      simpl in Hser. injection Hser as Hser.
      apply (IH (k', x) Hx) in Hser as [Heq ->]; try done.
      * simpl in Heq. by subst x'.
      * by apply (Hv (k', x)).
Qed.

(** *** Descriptors *)

Lemma append_empty_r (s : string) : s +:+ "" = s.
Proof. induction s as [|c s IH]; simpl; [done|]. by rewrite IH. Qed.

Lemma SerializeJSONMembers_defined o :
  SerializeJSONMembers o = SerializeJSONMembers (defined o).
Proof.
  induction o as [|[k x] o IH]; simpl; [done|].
  destruct x; simpl; by rewrite IH.
Qed.

Lemma json_data_defined o :
  Forall (λ p, json_field p.2 = true) o →
  json_data (JObject (defined o)) = true.
Proof.
  rewrite json_data_object.
  induction 1 as [|[k x] o Hx Ho IH]; simpl; [done|].
  destruct x; simpl in *; try done; by rewrite ?Hx, IH.
Qed.

Lemma defined_inj (o1 : JsObject) :
  ∀ o2 : JsObject,
    o1.*1 = o2.*1 → NoDup o1.*1 → defined o1 = defined o2 → o1 = o2.
Proof.
  assert (∀ (o : JsObject) k x, (k, x) ∈ defined o → k ∈ o.*1) as Hkey.
  { intros o k x Hin. apply list_elem_of_In, filter_In in Hin as [Hin _].
    apply list_elem_of_fmap. exists (k, x). split; [done|].
    by apply list_elem_of_In. }
  induction o1 as [|[k x1] o1 IH]; intros [|[k' x2] o2] Hkeys Hnd Hdef;
    try discriminate Hkeys; [done|].
  simpl in Hkeys. injection Hkeys as <- Hkeys.
  simpl in Hnd. apply NoDup_cons in Hnd as [Hk Hnd].
  unfold defined in Hdef. simpl in Hdef.
  destruct (is_defined x1) eqn:E1, (is_defined x2) eqn:E2.
  - injection Hdef as -> Hdef. f_equal. by apply IH.
  - exfalso. apply Hk. rewrite Hkeys. apply (Hkey o2 k x1).
    unfold defined. rewrite <- Hdef. apply elem_of_cons. by left.
  - exfalso. apply Hk. apply (Hkey o1 k x2).
    unfold defined. rewrite Hdef. apply elem_of_cons. by left.
  - destruct x1, x2; try discriminate. f_equal. by apply IH.
Qed.

(** Descriptors of JSON data with the same fingerprint have the same four
    fields. *)
Lemma getRequestId_inj d1 d2 :
  json_descriptor d1 = true → json_descriptor d2 = true →
  HttpClient.getRequestId d1 = HttpClient.getRequestId d2 →
  obj_get "method" d1 = obj_get "method" d2 ∧
  obj_get "url" d1 = obj_get "url" d2 ∧
  obj_get "params" d1 = obj_get "params" d2 ∧
  obj_get "data" d1 = obj_get "data" d2.
Proof.
  unfold json_descriptor, HttpClient.getRequestId.
  intros (((Hm1 & Hu1)%andb_true_iff & Hp1)%andb_true_iff & Hd1)%andb_true_iff.
  intros (((Hm2 & Hu2)%andb_true_iff & Hp2)%andb_true_iff & Hd2)%andb_true_iff.
  set (f1 := [("method", obj_get "method" d1); ("url", obj_get "url" d1);
              ("params", obj_get "params" d1); ("data", obj_get "data" d1)]).
  set (f2 := [("method", obj_get "method" d2); ("url", obj_get "url" d2);
              ("params", obj_get "params" d2); ("data", obj_get "data" d2)]).
  intros H.
  assert (Forall (λ p : string * JsValue, json_field p.2 = true) f1) as Hf1
    by (repeat constructor; done).
  assert (Forall (λ p : string * JsValue, json_field p.2 = true) f2) as Hf2
    by (repeat constructor; done).
  assert (JObject (defined f1) = JObject (defined f2)) as Hobj.
  { apply json_data_defined in Hf1, Hf2.
    assert (SerializeJSONObject (defined f1) = SerializeJSONObject (defined f2)) as H'.
    { unfold SerializeJSONObject in *. by rewrite <- !SerializeJSONMembers_defined. }
    apply (ser_inj _ Hf1 _ "" "" Hf2 eq_refl eq_refl).
    rewrite !append_empty_r. exact H'. }
  assert (defined f1 = defined f2) as Hdef by congruence.
  apply (defined_inj f1 f2) in Hdef.
  - by injection Hdef.
  - done.
  - apply (bool_decide_unpack _). by vm_compute.
Qed.




(** * Further properties of the client *)

(** ** What one call of [request] does to the store *)

(** The store after the synchronous part of [request]. *)
Lemma request_effect (config : RequestConfig) (st : state) :
  NoDup (MapData_keys (pendingRequests st)) →
  let requestId := HttpClient.getRequestId config in
  let m := pendingRequests st in
  let st' := (HttpClient.request config st).2 in
  MapData_get requestId (pendingRequests st') = Some (controllers st) ∧
  (∀ k, k ≠ requestId →
        MapData_get k (pendingRequests st') = MapData_get k m) ∧
  MapData_size (pendingRequests st') =
    (if MapData_has requestId m then MapData_size m else S (MapData_size m)) ∧
  (∀ c, c ∈ aborted st' ↔ c ∈ aborted st ∨ MapData_get requestId m = Some c) ∧
  controllers st' = S (controllers st).
Proof.
  intros Hm requestId m st'.
  destruct (request_run config st) as (resume & st1 & Hrun & Hc & Hst & _).
  subst st'. rewrite Hrun. cbn [snd]. fold requestId m in Hst.
  destruct (MapData_get requestId m) as [old|] eqn:Hold.
  - destruct Hst as (Hhas & -> & -> & _). rewrite Hhas. split_and!.
    + apply MapData_get_set_eq.
    + intros k Hk. by rewrite MapData_get_set_ne, MapData_get_delete_ne.
    + rewrite MapData_size_set, MapData_has_delete by done.
      by apply MapData_size_delete.
    + intros c. destruct (decide (old ∈ aborted st)) as [Hin|Hnin].
      * split; [auto|]. intros [?|[= ->]]; done.
      * rewrite elem_of_cons. split; [intros [->|?]; auto|].
        intros [?|[= ->]]; auto.
    + done.
  - destruct Hst as (Hhas & -> & -> & _). rewrite Hhas. split_and!.
    + apply MapData_get_set_eq.
    + intros k Hk. by rewrite MapData_get_set_ne.
    + by rewrite MapData_size_set, Hhas.
    + intros c. split; [auto|]. by intros [?|?].
    + done.
Qed.

(** X1: the synchronous part of [request] maps the call's fingerprint to a
    new controller and leaves the entries of all other fingerprints as they
    were; the table grows by one entry exactly when the fingerprint was
    not pending; the only controller it may abort is the one that was
    stored under the same fingerprint. *)
Theorem request_store_effect (config : RequestConfig) (st : state) :
  NoDup (MapData_keys (pendingRequests st)) →
  let requestId := HttpClient.getRequestId config in
  let m := pendingRequests st in
  let st' := (HttpClient.request config st).2 in
  MapData_get requestId (pendingRequests st') = Some (controllers st) ∧
  (∀ k, k ≠ requestId →
        MapData_get k (pendingRequests st') = MapData_get k m) ∧
  MapData_size (pendingRequests st') =
    (if MapData_has requestId m then MapData_size m else S (MapData_size m)) ∧
  (∀ c, c ∈ aborted st' ↔ c ∈ aborted st ∨ MapData_get requestId m = Some c) ∧
  controllers st' = S (controllers st).
Proof. apply request_effect. Qed.

Lemma request_store_effect_witness :
  let config := [("method", JString "GET"); ("url", JString "/items")] in
  let st := (HttpClient.request [("method", JString "GET"); ("url", JString "/other")]
               new_HttpClient).2 in
  let requestId := HttpClient.getRequestId config in
  let st' := (HttpClient.request config st).2 in
  MapData_get requestId (pendingRequests st') = Some (controllers st) ∧
  (∀ k, k ≠ requestId →
        MapData_get k (pendingRequests st') = MapData_get k (pendingRequests st)) ∧
  MapData_size (pendingRequests st') =
    (if MapData_has requestId (pendingRequests st)
     then MapData_size (pendingRequests st) else S (MapData_size (pendingRequests st))) ∧
  (∀ c, c ∈ aborted st' ↔
        c ∈ aborted st ∨ MapData_get requestId (pendingRequests st) = Some c) ∧
  controllers st' = S (controllers st).
Proof.
  intros config st requestId st'.
  apply (request_store_effect config st).
  apply (bool_decide_unpack _). by vm_compute.
Defined.

(** ** The table and the calls in flight *)

Lemma spawn_request_client_inv config sys :
  client_inv sys → client_inv (spawn (HttpClient.request config) sys).
Proof.
  intros [Hsys Hentries Hsignals Hnodup Haborted].
  pose proof (spawn_request_inv config sys Hsys) as Hsys'.
  destruct (spawn_request config sys) as (resume & st' & Hrun & Hspawn).
  pose proof (request_effect config (heap sys) (inv_keys _ Hsys)) as Heff.
  cbv zeta in Heff. rewrite Hrun in Heff. cbn [snd] in Heff.
  destruct Heff as (_ & _ & _ & Hab & Hc).
  destruct (request_run config (heap sys)) as (resume' & st'' & Hrun' & _ & Hst & _).
  rewrite Hrun in Hrun'. injection Hrun' as <- <-.
  assert (∀ k c, (k, c) ∈ MapData_entries (pendingRequests st') →
            (k, c) = (HttpClient.getRequestId config, controllers (heap sys)) ∨
            (k, c) ∈ MapData_entries (pendingRequests (heap sys))) as Hin.
  { intros k c. destruct (MapData_get _ _); destruct Hst as (_ & -> & _);
      intros [?|?]%MapData_entries_set; eauto using MapData_entries_delete. }
  assert (∀ old, MapData_get (HttpClient.getRequestId config)
                   (pendingRequests (heap sys)) = Some old →
                 old < controllers (heap sys)) as Hold.
  { intros old Hget. apply MapData_get_entries, Hentries in Hget as (t & Ht & _ & Hsig).
    destruct (Hsignals t Ht) as (c & Hsig' & Hlt). congruence. }
  rewrite Hspawn in Hsys' |- *. split; cbn [heap tasks outcomes next_task].
  - done.
  - intros k c [Heq|Hkc]%Hin.
    + injection Heq as -> ->. eexists. split; [apply elem_of_app; right; by apply list_elem_of_singleton|].
      unfold task_signal. cbn [task_call].
      split; [by apply getRequestId_set_other|apply obj_get_set_eq].
    + destruct (Hentries k c Hkc) as (t & Ht & Hfp & Hsig).
      exists t. split; [apply elem_of_app; by left|done].
  - intros t [Ht|Ht]%elem_of_app.
    + destruct (Hsignals t Ht) as (c & Hsig & Hlt). exists c. split; [done|lia].
    + apply list_elem_of_singleton in Ht as ->.
      exists (controllers (heap sys)). unfold task_signal. cbn [task_call].
      split; [apply obj_get_set_eq|lia].
  - rewrite map_app. apply NoDup_app. split_and!; [done| |apply NoDup_singleton].
    intros sig Hsig ->%list_elem_of_singleton.
    unfold task_signal in Hsig at 1. cbn [task_call] in Hsig.
    rewrite obj_get_set_eq in Hsig.
    apply list_elem_of_In, in_map_iff in Hsig as (t & Hsig & Ht).
    apply list_elem_of_In in Ht.
    destruct (Hsignals t Ht) as (c & Hsig' & Hlt).
    rewrite Hsig in Hsig'. injection Hsig' as <-. lia.
  - intros c [Hc'|Hget]%Hab; [apply Haborted in Hc'|apply Hold in Hget]; lia.
Qed.

Lemma settle_client_inv id outcome sys :
  client_inv sys →
  ∃ sys', step (Settle id outcome) sys = Some sys' ∧ client_inv sys'.
Proof.
  intros Hinv. pose proof Hinv as [Hsys Hentries Hsignals Hnodup Haborted].
  destruct (settle_inv id outcome sys Hsys) as (sys' & Hstep & Hsys').
  exists sys'. split; [done|].
  destruct (take_task id (tasks sys)) as [[t rest]|] eqn:Htake.
  - destruct (settle_step sys id outcome t rest Hsys Htake) as (r & Hstep').
    rewrite Hstep in Hstep'. injection Hstep' as ->.
    destruct (take_task_Some _ _ _ _ Htake) as [_ Hperm].
    assert (∀ t', t' ∈ rest → t' ∈ tasks sys) as Hrest.
    { intros t' Ht'. rewrite Hperm. apply elem_of_cons. by right. }
    split; cbn [heap tasks outcomes next_task emit with_pendingRequests
                pendingRequests aborted controllers].
    + done.
    + intros k c Hkc.
      pose proof (MapData_entries_delete_ne _ _ _ _ (inv_keys _ Hsys) Hkc) as Hne.
      apply MapData_entries_delete, Hentries in Hkc as (t' & Ht' & Hfp & Hsig).
      exists t'. split; [|done].
      rewrite Hperm in Ht'. apply elem_of_cons in Ht' as [->|?]; [congruence|done].
    + intros t' Ht'. by apply Hsignals, Hrest.
    + assert (map task_signal (tasks sys) ≡ₚ task_signal t :: map task_signal rest)
        as Hp by (by rewrite Hperm).
      rewrite Hp in Hnodup. by apply NoDup_cons in Hnodup as [_ ?].
    + done.
  - simpl in Hstep. rewrite Htake in Hstep. by injection Hstep as <-.
Qed.

Lemma cancelAll_client_inv sys :
  client_inv sys →
  ∃ sys', step CallCancelAll sys = Some sys' ∧ client_inv sys'.
Proof.
  intros [Hsys Hentries Hsignals Hnodup Haborted].
  destruct (cancelAll_inv sys Hsys) as (sys' & Hstep & Hsys').
  exists sys'. split; [done|].
  simpl in Hstep.
  destruct (cancelAll_run (heap sys)) as (st' & Hrun & Hp & Hc & _ & Hab).
  rewrite Hrun in Hstep. injection Hstep as <-.
  split; cbn [heap tasks outcomes next_task].
  - done.
  - intros k c. rewrite Hp, MapData_entries_replicate. by intros ?%elem_of_nil.
  - intros t Ht. rewrite Hc. by apply Hsignals.
  - done.
  - intros c [Hin|Hin]%Hab; rewrite Hc; [by apply Haborted|].
    apply list_elem_of_fmap in Hin as ([k c'] & -> & Hin).
    destruct (Hentries k c' Hin) as (t & Ht & _ & Hsig).
    destruct (Hsignals t Ht) as (c & Hsig' & Hlt). simpl. congruence.
Qed.

Lemma step_client_inv a sys :
  client_inv sys → ∃ sys', step a sys = Some sys' ∧ client_inv sys'.
Proof.
  intros Hinv. destruct a;
    try (eexists; split; [reflexivity|]; by apply spawn_request_client_inv).
  - by apply cancelAll_client_inv.
  - by apply settle_client_inv.
Qed.

Lemma new_system_client_inv : client_inv new_system.
Proof.
  split; simpl.
  - apply new_system_inv.
  - intros k c H. by apply elem_of_nil in H.
  - intros t H. by apply elem_of_nil in H.
  - constructor.
  - intros c H. by apply elem_of_nil in H.
Qed.

Lemma run_client_inv actions :
  ∀ sys, client_inv sys → ∃ sys', run actions sys = Some sys' ∧ client_inv sys'.
Proof.
  induction actions as [|a actions IH]; intros sys Hinv; simpl; [by eauto|].
  destruct (step_client_inv a sys Hinv) as (sys1 & -> & Hinv1). by apply IH.
Qed.

Lemma reachable_client_inv actions sys :
  run actions new_system = Some sys → client_inv sys.
Proof.
  intros Hrun.
  destruct (run_client_inv actions new_system new_system_client_inv)
    as (sys' & Hrun' & Hinv).
  congruence.
Qed.

(** X2: when the transport settles a pending call, with a response or an
    error, the call deletes the table entry of its own fingerprint and
    touches nothing else: the entries of other fingerprints stay, no
    controller is aborted or created, and the call leaves the calls in
    flight. *)
Theorem settlement_store_effect
    (actions : list action) (sys : system) (id : nat) (outcome : settlement) :
  run actions new_system = Some sys →
  id ∈ map task_id (tasks sys) →
  ∃ t sys',
    t ∈ tasks sys ∧ task_id t = id ∧
    step (Settle id outcome) sys = Some sys' ∧
    MapData_has (HttpClient.getRequestId (task_call t))
      (pendingRequests (heap sys')) = false ∧
    (∀ k, k ≠ HttpClient.getRequestId (task_call t) →
          MapData_get k (pendingRequests (heap sys')) =
            MapData_get k (pendingRequests (heap sys))) ∧
    aborted (heap sys') = aborted (heap sys) ∧
    controllers (heap sys') = controllers (heap sys) ∧
    tasks sys ≡ₚ t :: tasks sys'.
Proof.
  intros Hrun Hin.
  destruct (reachable_client_inv _ _ Hrun) as [Hsys _ _ _ _].
  destruct (take_task_elem id _ Hin) as (t & rest & Htake & Ht).
  destruct (take_task_Some _ _ _ _ Htake) as [Hid Hperm].
  destruct (settle_step sys id outcome t rest Hsys Htake) as (r & Hstep).
  eexists t, _. split_and!; [done|done|exact Hstep|..];
    cbn [heap tasks emit with_pendingRequests pendingRequests aborted controllers].
  - apply MapData_has_delete, Hsys.
  - intros k Hk. by apply MapData_get_delete_ne.
  - done.
  - done.
  - done.
Qed.

Lemma settlement_store_effect_witness :
  let actions := [CallGet "/items" None] in
  let sys := spawn (HttpClient.get "/items" None) new_system in
  let outcome := Reject NetworkError in
  ∃ t sys',
    t ∈ tasks sys ∧ task_id t = 0 ∧
    step (Settle 0 outcome) sys = Some sys' ∧
    MapData_has (HttpClient.getRequestId (task_call t))
      (pendingRequests (heap sys')) = false ∧
    (∀ k, k ≠ HttpClient.getRequestId (task_call t) →
          MapData_get k (pendingRequests (heap sys')) =
            MapData_get k (pendingRequests (heap sys))) ∧
    aborted (heap sys') = aborted (heap sys) ∧
    controllers (heap sys') = controllers (heap sys) ∧
    tasks sys ≡ₚ t :: tasks sys'.
Proof.
  intros actions sys outcome.
  apply (settlement_store_effect actions sys 0 outcome).
  - reflexivity.
  - simpl. apply elem_of_cons. by left.
Defined.

(** X3: the error that a failed call throws is the transport's error, and
    it carries [isCanceled = true] exactly when its [name] is AbortError;
    for any other name [isCanceled] is left unset. *)
Theorem rejection_marked_iff_AbortError
    (actions : list action) (sys : system) (id : nat) (reason : AxiosError) :
  run actions new_system = Some sys →
  id ∈ map task_id (tasks sys) →
  ∃ sys' err,
    step (Settle id (Reject reason)) sys = Some sys' ∧
    outcomes sys' = outcomes sys ++ [(id, Thrown err)] ∧
    axiosError err = reason ∧
    (isCanceled err = Some true ↔ name reason = "AbortError") ∧
    (isCanceled err = None ↔ name reason ≠ "AbortError").
Proof.
  intros Hrun Hin.
  destruct (reachable_client_inv _ _ Hrun) as [Hsys _ _ _ _].
  destruct (settle_delivers sys id (Reject reason) Hsys Hin)
    as (t & sys' & _ & _ & Hstep & Houts & _).
  eexists sys', _. split_and!; [done|done|done|..]; simpl;
    destruct (String.eqb_spec (name reason) "AbortError"); split; congruence.
Qed.

Lemma rejection_marked_iff_AbortError_witness :
  let actions := [CallGet "/items" None] in
  let sys := spawn (HttpClient.get "/items" None) new_system in
  ∃ sys' err,
    step (Settle 0 (Reject AbortError)) sys = Some sys' ∧
    outcomes sys' = outcomes sys ++ [(0, Thrown err)] ∧
    axiosError err = AbortError ∧
    (isCanceled err = Some true ↔ name AbortError = "AbortError") ∧
    (isCanceled err = None ↔ name AbortError ≠ "AbortError").
Proof.
  intros actions sys.
  apply (rejection_marked_iff_AbortError actions sys 0 AbortError).
  - reflexivity.
  - simpl. apply elem_of_cons. by left.
Defined.

Lemma client_inv_size sys :
  client_inv sys → MapData_size (pendingRequests (heap sys)) ≤ length (tasks sys).
Proof.
  intros [Hsys Hentries _ _ _]. unfold MapData_size.
  rewrite <- (length_fmap fst), <- (length_map (λ t, HttpClient.getRequestId (task_call t))).
  apply submseteq_length, NoDup_submseteq; [apply Hsys|].
  intros k ([k' c] & -> & Hkc)%list_elem_of_fmap.
  destruct (Hentries k' c Hkc) as (t & Ht & <- & _). simpl.
  by apply (elem_of_map_1 (λ t, HttpClient.getRequestId (task_call t))).
Qed.

(** X7: in every state the client can reach, each live entry of the table
    is the fingerprint of a call in flight and holds the controller whose
    signal that call gave to the transport; so the table never has more
    entries than there are calls in flight, and it is empty when none is. *)
Theorem table_entries_are_in_flight (actions : list action) (sys : system) :
  run actions new_system = Some sys →
  (∀ k c, (k, c) ∈ MapData_entries (pendingRequests (heap sys)) →
          ∃ t, t ∈ tasks sys ∧ HttpClient.getRequestId (task_call t) = k ∧
               task_signal t = JSignal c) ∧
  MapData_size (pendingRequests (heap sys)) ≤ length (tasks sys) ∧
  (tasks sys = [] → MapData_size (pendingRequests (heap sys)) = 0).
Proof.
  intros Hrun.
  pose proof (reachable_client_inv _ _ Hrun) as Hinv.
  pose proof (client_inv_size sys Hinv) as Hsize.
  destruct Hinv as [Hsys Hentries _ _ _].
  split; [done|]. split; [done|].
  intros Hnil. rewrite Hnil in Hsize. simpl in Hsize. lia.
Qed.

Lemma table_entries_are_in_flight_witness :
  let sys := spawn (HttpClient.get "/items" None) new_system in
  (∀ k c, (k, c) ∈ MapData_entries (pendingRequests (heap sys)) →
          ∃ t, t ∈ tasks sys ∧ HttpClient.getRequestId (task_call t) = k ∧
               task_signal t = JSignal c) ∧
  MapData_size (pendingRequests (heap sys)) ≤ length (tasks sys) ∧
  (tasks sys = [] → MapData_size (pendingRequests (heap sys)) = 0).
Proof.
  intros sys.
  apply (table_entries_are_in_flight [CallGet "/items" None] sys).
  reflexivity.
Defined.

(** X8: in every state the client can reach, a call of [request] leaves
    the calls in flight with another fingerprint alone: they stay in
    flight, their table entries are untouched, and the call does not abort
    their signals. *)
Theorem request_spares_other_fingerprints
    (actions : list action) (sys : system) (config : RequestConfig) :
  run actions new_system = Some sys →
  ∃ sys',
    step (CallRequest config) sys = Some sys' ∧
    ∀ t, t ∈ tasks sys →
         HttpClient.getRequestId (task_call t) ≠ HttpClient.getRequestId config →
         t ∈ tasks sys' ∧
         MapData_get (HttpClient.getRequestId (task_call t)) (pendingRequests (heap sys')) =
           MapData_get (HttpClient.getRequestId (task_call t)) (pendingRequests (heap sys)) ∧
         ∃ c, task_signal t = JSignal c ∧
              (c ∈ aborted (heap sys') → c ∈ aborted (heap sys)).
Proof.
  intros Hrun.
  destruct (reachable_client_inv _ _ Hrun) as [Hsys Hentries Hsignals Hnodup _].
  destruct (spawn_request config sys) as (resume & st' & Hreq & Hspawn).
  pose proof (request_effect config (heap sys) (inv_keys _ Hsys)) as Heff.
  cbv zeta in Heff. rewrite Hreq in Heff. cbn [snd] in Heff.
  destruct Heff as (_ & Hframe & _ & Hab & _).
  eexists. split; [simpl; by rewrite Hspawn|].
  cbn [heap tasks]. intros t Ht Hne. split_and!.
  - apply elem_of_app. by left.
  - by apply Hframe.
  - destruct (Hsignals t Ht) as (c & Hsig & _). exists c. split; [done|].
    intros [?|Hget]%Hab; [done|]. exfalso.
    apply MapData_get_entries, Hentries in Hget as (t' & Ht' & Hfp & Hsig').
    assert (t = t') as <-.
    { apply (NoDup_map_eq task_signal (tasks sys)); congruence. }
    done.
Qed.

Lemma request_spares_other_fingerprints_witness :
  let sys := spawn (HttpClient.get "/items" None) new_system in
  let config := [("method", JString "GET"); ("url", JString "/users")] in
  ∃ sys',
    step (CallRequest config) sys = Some sys' ∧
    ∀ t, t ∈ tasks sys →
         HttpClient.getRequestId (task_call t) ≠ HttpClient.getRequestId config →
         t ∈ tasks sys' ∧
         MapData_get (HttpClient.getRequestId (task_call t)) (pendingRequests (heap sys')) =
           MapData_get (HttpClient.getRequestId (task_call t)) (pendingRequests (heap sys)) ∧
         ∃ c, task_signal t = JSignal c ∧
              (c ∈ aborted (heap sys') → c ∈ aborted (heap sys)).
Proof.
  intros sys config.
  apply (request_spares_other_fingerprints [CallGet "/items" None] sys config).
  reflexivity.
Defined.

(** X9: in every state the client can reach, the call that [request]
    starts is given the signal of a controller that is not aborted when
    the call suspends: a call aborts the one it supersedes, never itself. *)
Theorem new_call_is_not_aborted
    (actions : list action) (sys : system) (config : RequestConfig) :
  run actions new_system = Some sys →
  ∃ sys' t,
    step (CallRequest config) sys = Some sys' ∧
    tasks sys' = tasks sys ++ [t] ∧
    task_id t = next_task sys ∧
    task_signal t = JSignal (controllers (heap sys)) ∧
    (controllers (heap sys) ∉ aborted (heap sys')) ∧
    MapData_get (HttpClient.getRequestId config) (pendingRequests (heap sys')) =
      Some (controllers (heap sys)).
Proof.
  intros Hrun.
  destruct (reachable_client_inv _ _ Hrun) as [Hsys Hentries Hsignals _ Haborted].
  destruct (spawn_request config sys) as (resume & st' & Hreq & Hspawn).
  pose proof (request_effect config (heap sys) (inv_keys _ Hsys)) as Heff.
  cbv zeta in Heff. rewrite Hreq in Heff. cbn [snd] in Heff.
  destruct Heff as (Hget & _ & _ & Hab & _).
  eexists _, _. split; [simpl; by rewrite Hspawn|].
  cbn [heap tasks task_id]. split_and!; try done.
  - unfold task_signal. cbn [task_call]. apply obj_get_set_eq.
  - intros [Hin|Hold]%Hab.
    + apply Haborted in Hin. lia.
    + apply MapData_get_entries, Hentries in Hold as (t' & Ht' & _ & Hsig).
      destruct (Hsignals t' Ht') as (c & Hsig' & Hlt).
      rewrite Hsig in Hsig'. injection Hsig' as <-. lia.
Qed.

Lemma new_call_is_not_aborted_witness :
  let sys := spawn (HttpClient.get "/items" None) new_system in
  let config := [("method", JString "GET"); ("url", JString "/items")] in
  ∃ sys' t,
    step (CallRequest config) sys = Some sys' ∧
    tasks sys' = tasks sys ++ [t] ∧
    task_id t = next_task sys ∧
    task_signal t = JSignal (controllers (heap sys)) ∧
    (controllers (heap sys) ∉ aborted (heap sys')) ∧
    MapData_get (HttpClient.getRequestId config) (pendingRequests (heap sys')) =
      Some (controllers (heap sys)).
Proof.
  intros sys config.
  apply (new_call_is_not_aborted [CallGet "/items" None] sys config).
  reflexivity.
Defined.

(** ** [cancelAllPendingRequests] again *)

Lemma forEach_all_None (callbackfn : nat → string → M unit) k :
  ∀ index fuel st,
    pendingRequests st = replicate (index + k) None →
    k < fuel →
    Map_forEach_from fuel callbackfn index st = (true, st).
Proof.
  induction k as [|k IH]; intros index fuel st Hm Hfuel;
    (destruct fuel as [|fuel]; [lia|]); simpl; rewrite Hm.
  - rewrite (proj1 (lookup_replicate_None _ _ _)) by lia. done.
  - rewrite lookup_replicate_2 by lia. apply IH; [|lia].
    rewrite Hm. f_equal. lia.
Qed.

(** X4: a second [cancelAllPendingRequests] right after a first one does
    nothing: it finds no entry, aborts nothing and leaves the store as the
    first call left it. *)
Theorem cancelAllPendingRequests_twice (st : state) (fuel fuel' : nat) :
  length (pendingRequests st) < fuel →
  length (pendingRequests st) < fuel' →
  let st' := (HttpClient.cancelAllPendingRequests fuel st).2 in
  HttpClient.cancelAllPendingRequests fuel' st' = (true, st').
Proof.
  intros Hfuel Hfuel' st'.
  destruct (forEach_cancel_from (pendingRequests st) 0 fuel st)
    as (st1 & Hrun & Hp & _); [done|done|].
  unfold HttpClient.cancelAllPendingRequests, Map_forEach in *.
  subst st'. rewrite Hrun. cbn [snd].
  apply (forEach_all_None _ (length (pendingRequests st))); done.
Qed.

Lemma cancelAllPendingRequests_twice_witness :
  let st := {| pendingRequests := [Some ("a", 0); None; Some ("b", 2)];
               aborted := []; controllers := 3; trace := [] |} in
  let st' := (HttpClient.cancelAllPendingRequests 4 st).2 in
  HttpClient.cancelAllPendingRequests 5 st' = (true, st').
Proof.
  intros st. apply (cancelAllPendingRequests_twice st 4 5); simpl; lia.
Defined.

(** ** Fingerprints of different methods and urls *)

(** The fingerprint of a config with a string method and a string url
    begins with the two, quoted. *)
Lemma getRequestId_method_url config method url :
  obj_get "method" config = JString method →
  obj_get "url" config = JString url →
  ∃ rest,
    HttpClient.getRequestId config =
      ("{" +:+ QuoteJSONString "method" +:+ ":") +:+ QuoteJSONString method +:+
      ("," +:+ QuoteJSONString "url" +:+ ":") +:+ QuoteJSONString url +:+ rest.
Proof.
  intros Hm Hu. unfold HttpClient.getRequestId, SerializeJSONObject.
  rewrite Hm, Hu. cbn [SerializeJSONMembers SerializeJSONProperty].
  destruct (SerializeJSONProperty (obj_get "params" config)) as [p|];
    destruct (SerializeJSONProperty (obj_get "data" config)) as [d|];
    cbn [join_comma]; eexists; rewrite !append_assoc; reflexivity.
Qed.

(** Fingerprints tell methods and urls apart. *)
Lemma getRequestId_method_url_inj
    (c1 c2 : RequestConfig) (method1 url1 method2 url2 : string) :
  obj_get "method" c1 = JString method1 →
  obj_get "url" c1 = JString url1 →
  obj_get "method" c2 = JString method2 →
  obj_get "url" c2 = JString url2 →
  method1 ≠ method2 ∨ url1 ≠ url2 →
  HttpClient.getRequestId c1 ≠ HttpClient.getRequestId c2.
Proof.
  intros Hm1 Hu1 Hm2 Hu2 Hdiff Heq.
  destruct (getRequestId_method_url c1 _ _ Hm1 Hu1) as (rest1 & H1).
  destruct (getRequestId_method_url c2 _ _ Hm2 Hu2) as (rest2 & H2).
  rewrite H1, H2 in Heq.
  apply (inj (String.app _)) in Heq.
  apply QuoteJSONString_inj in Heq as [-> Heq].
  apply (inj (String.app _)) in Heq.
  apply QuoteJSONString_inj in Heq as [-> _].
  by destruct Hdiff.
Qed.

(** X5: two configs whose methods and urls are strings and that differ
    in the method or in the url have different fingerprints, whatever
    their params and data (JSON data or not). *)
Theorem fingerprint_separates_method_and_url
    (c1 c2 : RequestConfig) (method1 url1 method2 url2 : string) :
  obj_get "method" c1 = JString method1 →
  obj_get "url" c1 = JString url1 →
  obj_get "method" c2 = JString method2 →
  obj_get "url" c2 = JString url2 →
  method1 ≠ method2 ∨ url1 ≠ url2 →
  HttpClient.getRequestId c1 ≠ HttpClient.getRequestId c2.
Proof. apply getRequestId_method_url_inj. Qed.

Lemma fingerprint_separates_method_and_url_witness :
  let c1 := [("method", JString "GET"); ("url", JString "/items");
             ("params", JObject [("page", JUndefined)])] in
  let c2 := [("url", JString "/items/1"); ("method", JString "GET");
             ("data", JSignal 3)] in
  HttpClient.getRequestId c1 ≠ HttpClient.getRequestId c2.
Proof.
  intros c1 c2.
  apply (fingerprint_separates_method_and_url c1 c2 "GET" "/items" "GET" "/items/1");
    [reflexivity|reflexivity|reflexivity|reflexivity|].
  right. discriminate.
Defined.

(** X6: calls through two different wrappers never have the same
    fingerprint, whatever their urls, bodies and configs: a [get], a
    [post], a [put] and a [delete] do not supersede one another. *)
Theorem wrappers_never_share_fingerprint
    (url1 url2 : string) (body1 body2 : JsValue) (config1 config2 : option RequestConfig) :
  let fp := HttpClient.getRequestId in
  let G := get_config url1 config1 in
  let D := delete_config url1 config1 in
  let P := post_config url1 body1 config1 in
  let U := put_config url1 body1 config1 in
  (HttpClient.get url1 config1 = HttpClient.request G ∧
   HttpClient.delete url1 config1 = HttpClient.request D ∧
   HttpClient.post url1 body1 config1 = HttpClient.request P ∧
   HttpClient.put url1 body1 config1 = HttpClient.request U) ∧
  fp G ≠ fp (delete_config url2 config2) ∧
  fp G ≠ fp (post_config url2 body2 config2) ∧
  fp G ≠ fp (put_config url2 body2 config2) ∧
  fp D ≠ fp (post_config url2 body2 config2) ∧
  fp D ≠ fp (put_config url2 body2 config2) ∧
  fp P ≠ fp (put_config url2 body2 config2).
Proof.
  intros fp G D P U. split; [done|].
  assert (∀ m u c, obj_get "method" (obj_set "url" (JString u)
                     (obj_set "method" (JString m) c)) = JString m) as Hm.
  { intros m u c. rewrite obj_get_set_ne by done. apply obj_get_set_eq. }
  assert (∀ m u b c, obj_get "method" (obj_set "data" b (obj_set "url" (JString u)
                       (obj_set "method" (JString m) c))) = JString m) as Hm'.
  { intros m u b c. rewrite obj_get_set_ne by done. apply Hm. }
  assert (∀ u b c, obj_get "url" (obj_set "data" b (obj_set "url" (JString u) c))
                   = JString u) as Hu'.
  { intros u b c. rewrite obj_get_set_ne by done. apply obj_get_set_eq. }
  split_and!;
    (eapply getRequestId_method_url_inj;
     [first [apply Hm|apply Hm'] | first [apply obj_get_set_eq|apply Hu']
     |first [apply Hm|apply Hm'] | first [apply obj_get_set_eq|apply Hu']
     |left; discriminate]).
Qed.

(** ** A call alone, and a call repeated *)

Lemma MapData_entries_delete_single key value m :
  MapData_entries m = [(key, value)] →
  MapData_entries (MapData_delete key m) = [].
Proof.
  induction m as [|[[k' v']|] m IH]; cbn [MapData_delete]; [done| |done].
  rewrite MapData_entries_Some. intros [= -> -> Hm].
  by rewrite String.eqb_refl, MapData_entries_None.
Qed.

Lemma MapData_get_single key value m :
  MapData_entries m = [(key, value)] → MapData_get key m = Some value.
Proof.
  induction m as [|[[k' v']|] m IH]; cbn [MapData_get]; [done| |done].
  rewrite MapData_entries_Some. intros [= -> -> Hm].
  by rewrite String.eqb_refl.
Qed.

Lemma MapData_has_no_entries key m :
  MapData_entries m = [] → MapData_has key m = false.
Proof.
  intros Hm. destruct (MapData_has key m) eqn:E; [|done].
  apply MapData_has_keys in E. unfold MapData_keys in E. rewrite Hm in E.
  by apply elem_of_nil in E.
Qed.

Lemma MapData_get_no_entries key m :
  MapData_entries m = [] → MapData_get key m = None.
Proof.
  intros Hm. destruct (MapData_get key m) as [c|] eqn:E; [|done].
  apply MapData_get_entries in E. rewrite Hm in E. by apply elem_of_nil in E.
Qed.

Lemma run_app actions1 actions2 sys :
  run (actions1 ++ actions2) sys =
    match run actions1 sys with
    | Some sys' => run actions2 sys'
    | None => None
    end.
Proof.
  revert sys. induction actions1 as [|a actions1 IH]; intros sys; simpl; [done|].
  destruct (step a sys); [apply IH|done].
Qed.

(** X10: a call made while no call is in flight aborts nothing and puts
    one entry in an otherwise empty table; when the transport settles it,
    the table is empty again, no call is in flight, and the caller has the
    [data] of the response, or the transport's error. *)
Theorem solitary_call_round_trip
    (actions : list action) (sys : system) (config : RequestConfig)
    (outcome : settlement) :
  run actions new_system = Some sys →
  tasks sys = [] →
  ∃ sys1 sys2,
    step (CallRequest config) sys = Some sys1 ∧
    MapData_entries (pendingRequests (heap sys1)) =
      [(HttpClient.getRequestId config, controllers (heap sys))] ∧
    aborted (heap sys1) = aborted (heap sys) ∧
    step (Settle (next_task sys) outcome) sys1 = Some sys2 ∧
    MapData_size (pendingRequests (heap sys2)) = 0 ∧
    aborted (heap sys2) = aborted (heap sys) ∧
    tasks sys2 = [] ∧
    outcomes sys2 = outcomes sys ++
      [(next_task sys,
        match outcome with
        | Resolve response => Returned (data response)
        | Reject reason =>
            Thrown {| axiosError := reason;
                      isCanceled := if String.eqb (name reason) "AbortError"
                                    then Some true else None |}
        end)].
Proof.
  intros Hrun Hidle.
  pose proof (reachable_client_inv _ _ Hrun) as Hinv.
  pose proof (client_inv_size sys Hinv) as Hsize.
  rewrite Hidle in Hsize. simpl in Hsize.
  assert (MapData_entries (pendingRequests (heap sys)) = []) as Hempty.
  { unfold MapData_size in Hsize.
    destruct (MapData_entries (pendingRequests (heap sys))); [done|simpl in Hsize; lia]. }
  destruct (spawn_request config sys) as (resume & st1 & Hreq & Hspawn).
  destruct (request_run config (heap sys)) as (resume' & st1' & Hreq' & _ & Hst & _).
  rewrite Hreq in Hreq'. injection Hreq' as <- <-.
  rewrite (MapData_get_no_entries _ _ Hempty) in Hst.
  destruct Hst as (Hhas & Hp & Ha & _).
  set (sys1 := spawn (HttpClient.request config) sys).
  assert (client_inv sys1) as Hinv1 by (by apply spawn_request_client_inv).
  assert (take_task (next_task sys) (tasks sys1) =
            Some ({| task_id := next_task sys;
                     task_call := obj_set "signal" (JSignal (controllers (heap sys))) config;
                     task_resume := resume |}, [])) as Htake.
  { unfold sys1. rewrite Hspawn, Hidle. simpl. by rewrite Nat.eqb_refl. }
  destruct (settle_step sys1 (next_task sys) outcome _ _ (inv_system _ Hinv1) Htake)
    as (r & Hstep).
  destruct (settle_delivers sys1 (next_task sys) outcome (inv_system _ Hinv1))
    as (t & sys2 & _ & _ & Hstep' & Houts & _).
  { unfold sys1. rewrite Hspawn, Hidle. simpl. apply elem_of_cons. by left. }
  assert (MapData_entries (pendingRequests (heap sys1)) =
            [(HttpClient.getRequestId config, controllers (heap sys))]) as Hentries1.
  { unfold sys1. rewrite Hspawn. cbn [heap].
    by rewrite Hp, MapData_entries_set_new, Hempty. }
  exists sys1, sys2. split_and!; try done.
  - unfold sys1. rewrite Hspawn. cbn [heap]. done.
  - rewrite Hstep in Hstep'. injection Hstep' as <-.
    cbn [heap emit with_pendingRequests pendingRequests task_call].
    rewrite getRequestId_set_other by done. unfold MapData_size.
    by rewrite (MapData_entries_delete_single _ _ _ Hentries1).
  - rewrite Hstep in Hstep'. injection Hstep' as <-.
    cbn [heap emit with_pendingRequests aborted].
    unfold sys1. rewrite Hspawn. cbn [heap]. done.
  - rewrite Hstep in Hstep'. by injection Hstep' as <-.
  - rewrite Houts. unfold sys1. rewrite Hspawn. done.
Qed.

Lemma solitary_call_round_trip_witness :
  let sys := new_system in
  let config := [("method", JString "GET"); ("url", JString "/items")] in
  let outcome := Resolve {| data := JObject [("code", JNumber 200)];
                            status := 200; statusText := "OK" |} in
  ∃ sys1 sys2,
    step (CallRequest config) sys = Some sys1 ∧
    MapData_entries (pendingRequests (heap sys1)) =
      [(HttpClient.getRequestId config, controllers (heap sys))] ∧
    aborted (heap sys1) = aborted (heap sys) ∧
    step (Settle (next_task sys) outcome) sys1 = Some sys2 ∧
    MapData_size (pendingRequests (heap sys2)) = 0 ∧
    aborted (heap sys2) = aborted (heap sys) ∧
    tasks sys2 = [] ∧
    outcomes sys2 = outcomes sys ++
      [(next_task sys,
        match outcome with
        | Resolve response => Returned (data response)
        | Reject reason =>
            Thrown {| axiosError := reason;
                      isCanceled := if String.eqb (name reason) "AbortError"
                                    then Some true else None |}
        end)].
Proof.
  intros sys config outcome.
  apply (solitary_call_round_trip [] sys config outcome); reflexivity.
Defined.

(** X11: the same call made again and again while no answer has come:
    starting with no call in flight, after [k + 1] identical calls the
    table holds one entry, the controller of the last call, and the
    controllers of the [k] earlier calls, and no others, have been
    aborted. *)
Theorem repeated_call_keeps_only_the_last
    (actions : list action) (sys : system) (config : RequestConfig) (k : nat) :
  run actions new_system = Some sys →
  tasks sys = [] →
  let c0 := controllers (heap sys) in
  ∃ sys',
    run (replicate (S k) (CallRequest config)) sys = Some sys' ∧
    MapData_entries (pendingRequests (heap sys')) =
      [(HttpClient.getRequestId config, c0 + k)] ∧
    aborted (heap sys') = rev (seq c0 k) ++ aborted (heap sys) ∧
    map task_signal (tasks sys') = map JSignal (seq c0 (S k)) ∧
    controllers (heap sys') = c0 + S k.
Proof.
  intros Hrun Hidle c0.
  pose proof (reachable_client_inv _ _ Hrun) as Hinv.
  pose proof (client_inv_size sys Hinv) as Hsize.
  rewrite Hidle in Hsize. simpl in Hsize.
  assert (MapData_entries (pendingRequests (heap sys)) = []) as Hempty.
  { unfold MapData_size in Hsize.
    destruct (MapData_entries (pendingRequests (heap sys))); [done|simpl in Hsize; lia]. }
  pose proof (inv_aborted _ Hinv) as Hab0. fold c0 in Hab0.
  induction k as [|k IH].
  - destruct (spawn_request config sys) as (resume & st1 & Hreq & Hspawn).
    destruct (request_run config (heap sys)) as (resume' & st1' & Hreq' & Hc & Hst & _).
    rewrite Hreq in Hreq'. injection Hreq' as <- <-.
    rewrite (MapData_get_no_entries _ _ Hempty) in Hst.
    destruct Hst as (Hhas & Hp & Ha & _).
    eexists. split; [simpl; by rewrite Hspawn|].
    cbn [heap tasks]. rewrite Hidle, Nat.add_0_r. split_and!.
    + by rewrite Hp, MapData_entries_set_new, Hempty.
    + done.
    + simpl. unfold task_signal. cbn [task_call]. by rewrite obj_get_set_eq.
    + rewrite Hc. unfold c0. lia.
  - destruct IH as (sysk & Hrunk & Hentries & Ha & Hsignals & Hc).
    rewrite replicate_S_end, run_app, Hrunk.
    destruct (spawn_request config sysk) as (resume & st1 & Hreq & Hspawn).
    destruct (request_run config (heap sysk)) as (resume' & st1' & Hreq' & Hc' & Hst & _).
    rewrite Hreq in Hreq'. injection Hreq' as <- <-.
    rewrite (MapData_get_single _ _ _ Hentries) in Hst.
    destruct Hst as (Hhas & Hp & Ha' & _).
    eexists. split; [simpl; by rewrite Hspawn|].
    cbn [heap tasks]. split_and!.
    + rewrite Hp, MapData_entries_set_new.
      * by rewrite (MapData_entries_delete_single _ _ _ Hentries), Hc.
      * apply MapData_has_no_entries.
        by apply (MapData_entries_delete_single _ _ _ Hentries).
    + rewrite Ha'. destruct (decide (c0 + k ∈ aborted (heap sysk))) as [Hin|_].
      * exfalso. rewrite Ha in Hin. apply elem_of_app in Hin as [Hin|Hin].
        -- apply list_elem_of_In, in_rev, in_seq in Hin. lia.
        -- apply Hab0 in Hin. lia.
      * rewrite Ha, (seq_S k), rev_unit. done.
    + rewrite map_app, Hsignals, (seq_S (S k)), map_app. simpl.
      unfold task_signal. cbn [task_call].
      rewrite obj_get_set_eq, Hc. do 3 f_equal.
    + rewrite Hc', Hc. lia.
Qed.

Lemma repeated_call_keeps_only_the_last_witness :
  let config := [("method", JString "GET"); ("url", JString "/items")] in
  ∃ sys',
    run (replicate 3 (CallRequest config)) new_system = Some sys' ∧
    MapData_entries (pendingRequests (heap sys')) =
      [(HttpClient.getRequestId config, controllers (heap new_system) + 2)] ∧
    aborted (heap sys') = rev (seq (controllers (heap new_system)) 2)
                            ++ aborted (heap new_system) ∧
    map task_signal (tasks sys') =
      map JSignal (seq (controllers (heap new_system)) 3) ∧
    controllers (heap sys') = controllers (heap new_system) + 3.
Proof.
  intros config.
  apply (repeated_call_keeps_only_the_last [] new_system config 2); reflexivity.
Defined.

(** ** The entry of a fingerprint is that of its latest call *)

Lemma spawn_request_latest config sys :
  client_inv sys → latest_entry sys →
  latest_entry (spawn (HttpClient.request config) sys).
Proof.
  intros [Hsys Hentries Hsignals _ _] Hlatest.
  destruct (spawn_request config sys) as (resume & st' & Hreq & Hspawn).
  destruct (request_run config (heap sys)) as (resume' & st'' & Hreq' & _ & Hst & _).
  rewrite Hreq in Hreq'. injection Hreq' as <- <-.
  assert (∀ k c, (k, c) ∈ MapData_entries (pendingRequests st') →
            (k, c) = (HttpClient.getRequestId config, controllers (heap sys)) ∨
            ((k, c) ∈ MapData_entries (pendingRequests (heap sys)) ∧
             k ≠ HttpClient.getRequestId config)) as Hin.
  { intros k c. destruct (MapData_get _ _); destruct Hst as (Hhas & -> & _);
      intros [?|Hkc]%MapData_entries_set; auto; right.
    - split; [by apply MapData_entries_delete in Hkc|].
      by apply (MapData_entries_delete_ne _ _ _ _ (inv_keys _ Hsys)) in Hkc.
    - split; [done|]. intros ->.
      assert (MapData_has (HttpClient.getRequestId config)
                (pendingRequests (heap sys)) = true); [|congruence].
      apply MapData_has_keys, list_elem_of_fmap. by eexists (_, c). }
  rewrite Hspawn. intros k c t c'. cbn [heap tasks].
  intros [Heq|[Hkc Hne]]%Hin [Ht|Ht]%elem_of_app Hfp Hsig.
  - injection Heq as -> ->.
    destruct (Hsignals t Ht) as (c1 & Hsig1 & Hlt).
    rewrite Hsig in Hsig1. injection Hsig1 as ->. lia.
  - injection Heq as -> ->. apply list_elem_of_singleton in Ht as ->.
    unfold task_signal in Hsig. cbn [task_call] in Hsig.
    rewrite obj_get_set_eq in Hsig. by injection Hsig as ->.
  - by apply (Hlatest k c t c').
  - apply list_elem_of_singleton in Ht as ->. cbn [task_call] in Hfp.
    rewrite getRequestId_set_other in Hfp by done. congruence.
Qed.

Lemma step_latest a sys sys' :
  client_inv sys → latest_entry sys → step a sys = Some sys' → latest_entry sys'.
Proof.
  intros Hinv Hlatest Hstep.
  destruct a; try (injection Hstep as <-; by apply spawn_request_latest).
  - simpl in Hstep.
    destruct (cancelAll_run (heap sys)) as (st' & Hrun & Hp & _).
    rewrite Hrun in Hstep. injection Hstep as <-.
    intros k c t c'. cbn [heap]. rewrite Hp, MapData_entries_replicate.
    by intros ?%elem_of_nil.
  - destruct (take_task id (tasks sys)) as [[t0 rest]|] eqn:Htake.
    + destruct (settle_step sys id outcome t0 rest (inv_system _ Hinv) Htake)
        as (r & Hstep').
      rewrite Hstep in Hstep'. injection Hstep' as ->.
      destruct (take_task_Some _ _ _ _ Htake) as [_ Hperm].
      intros k c t c'.
      cbn [heap tasks emit with_pendingRequests pendingRequests].
      intros Hkc%MapData_entries_delete Ht. apply (Hlatest k c t c'); [done|].
      rewrite Hperm. apply elem_of_cons. by right.
    + simpl in Hstep. rewrite Htake in Hstep. by injection Hstep as <-.
Qed.

Lemma run_latest actions :
  ∀ sys sys',
    client_inv sys → latest_entry sys → run actions sys = Some sys' →
    latest_entry sys'.
Proof.
  induction actions as [|a actions IH]; intros sys sys' Hinv Hlatest; simpl.
  - by intros [= <-].
  - destruct (step_client_inv a sys Hinv) as (sys1 & Hstep & Hinv1).
    rewrite Hstep. apply IH; [done|]. by apply (step_latest a sys).
Qed.

(** X12: in every state the client can reach, the controller stored under
    a fingerprint is that of the latest call in flight with this
    fingerprint: no call in flight with the same fingerprint was started
    after the one that owns the entry. *)
Theorem table_entry_is_the_latest_call (actions : list action) (sys : system) :
  run actions new_system = Some sys →
  ∀ k c, (k, c) ∈ MapData_entries (pendingRequests (heap sys)) →
    ∃ t, t ∈ tasks sys ∧ HttpClient.getRequestId (task_call t) = k ∧
         task_signal t = JSignal c ∧
         ∀ t' c', t' ∈ tasks sys →
                  HttpClient.getRequestId (task_call t') = k →
                  task_signal t' = JSignal c' → c' ≤ c.
Proof.
  intros Hrun k c Hkc.
  pose proof (reachable_client_inv _ _ Hrun) as Hinv.
  assert (latest_entry sys) as Hlatest.
  { apply (run_latest actions new_system sys); [apply new_system_client_inv| |done].
    intros k0 c0 t c' Hin. by apply elem_of_nil in Hin. }
  destruct (inv_entries _ Hinv k c Hkc) as (t & Ht & Hfp & Hsig).
  exists t. split_and!; try done.
  intros t' c' Ht' Hfp' Hsig'. by apply (Hlatest k c t' c').
Qed.

Lemma table_entry_is_the_latest_call_witness :
  let sys := spawn (HttpClient.get "/items" None)
               (spawn (HttpClient.get "/items" None) new_system) in
  let k := HttpClient.getRequestId (get_config "/items" None) in
  ∃ t, t ∈ tasks sys ∧ HttpClient.getRequestId (task_call t) = k ∧
       task_signal t = JSignal 1 ∧
       ∀ t' c', t' ∈ tasks sys →
                HttpClient.getRequestId (task_call t') = k →
                task_signal t' = JSignal c' → c' ≤ 1.
Proof.
  intros sys k.
  apply (table_entry_is_the_latest_call
           [CallGet "/items" None; CallGet "/items" None] sys).
  - reflexivity.
  - vm_compute. apply elem_of_cons. by left.
Defined.
